(** * MP3Mat: the Lilypad MP3 trigger sketch (src/MP3Mat/MP3Mat.ino)

    A shallow embedding of the sketch's polling loop and its helper
    functions, and the properties of its control logic.

    Conventions of the embedding:
    - the globals of the sketch are the fields of [State]; every function
      of the sketch is a function on [State] of the same name;
    - the MP3 decoder library, the SD card, the clock and the pins are
      collaborators: the decoder and the card are a parameter ([World]),
      the clock and the pins are the [Inputs] of a pass;
    - the calls issued to the decoder and to the power hardware are logged
      in [trace], the subscripts used on the [filename] array in
      [subscripts];
    - [DEBUG] is [false] in the sketch, so the serial diagnostics are left
      out;
    - within a pass the state of the decoder changes through the calls
      of the sketch only. *)

From stdpp Require Import base numbers list strings.

Local Open Scope Z_scope.

(** ** Machine integers of the ATmega328 (byte = 8 bits unsigned,
    long = 32 bits signed, unsigned long = 32 bits unsigned) *)

Definition to_byte (z : Z) : Z := z mod 256.
Definition to_ulong (z : Z) : Z := z mod 2 ^ 32.
Definition to_long (z : Z) : Z := (z + 2 ^ 31) mod 2 ^ 32 - 2 ^ 31.

(** ** Constants of the sketch *)

Definition DEBUG : bool := false.
Definition BUTTONDELAY : Z := 1000.
Definition MAX_NUM_FILES : Z := 20.
Definition SLEEP_DELAY : Z := 20000.
Definition LOW : Z := 0.
Definition HIGH : Z := 1.

(** ** Arduino core helpers used by the sketch: [map] and [constrain]
    (long arithmetic, C division truncating toward zero). *)

Definition map (x in_min in_max out_min out_max : Z) : Z :=
  Z.quot ((x - in_min) * (out_max - out_min)) (in_max - in_min) + out_min.

Definition constrain (amt low high : Z) : Z :=
  if amt <? low then low else if amt >? high then high else amt.

(** ** Read voltage divider input (buttonPushed, lines 623-682)

    [val] is the sample returned by [analogRead(pinNum)]; the pin set-up
    around it does not take part in the classification. *)

Definition buttonPushed (val : Z) : Z :=
  if (751 <=? val) && (val <=? 980) then 1
  else if (580 <=? val) && (val <=? 750) then 2
  else if (380 <=? val) && (val <=? 560) then 3
  else if (241 <=? val) && (val <=? 360) then 4
  else if (0 <=? val) && (val <=? 240) then 5
  else 0.

(** The five declared bands, as the comparison constants of
    [buttonPushed] give them: position, lowest and highest raw sample. *)

Definition band_lo (position : Z) : Z :=
  if position =? 1 then 751
  else if position =? 2 then 580
  else if position =? 3 then 380
  else if position =? 4 then 241
  else 0.

Definition band_hi (position : Z) : Z :=
  if position =? 1 then 980
  else if position =? 2 then 750
  else if position =? 3 then 560
  else if position =? 4 then 360
  else 240.

Definition in_band (position val : Z) : Prop :=
  1 <= position <= 5 /\ band_lo position <= val <= band_hi position.

(** ** Objects the sketch takes addresses of

    [dirname[i]] and [filename[i]] are rows of global arrays; used as a
    value, a row decays to the address of its first character.  A string
    literal is an object of its own.  Pointer comparisons of the sketch
    compare these addresses, not the characters stored there. *)

Inductive ptr : Type :=
  | NullPtr
  | DirnameRow (i : Z)
  | FilenameRow (i : Z)
  | Literal (text : string).

Global Instance ptr_eq_dec : EqDecision ptr.
Proof. solve_decision. Defined.

(** ** What the sketch does to its collaborators, in order *)

Inductive Event : Type :=
  | EvStop
  | EvPlay (name : string) (code : Z)
  | EvSetVolume (left right : Z)
  | EvAttachInterrupt
  | EvSleep
  | EvDetachInterrupt.

(** Subscript expressions on the [filename] array, in order of evaluation:
    a row read through (by [playMP3] or a print), a row written by
    [strcpy], or a row whose address only is taken. *)

Inductive Access : Type :=
  | AccRead (i : Z)
  | AccWrite (i : Z)
  | AccAddr (i : Z).

Definition access_index (a : Access) : Z :=
  match a with AccRead i | AccWrite i | AccAddr i => i end.

Definition in_bounds (i : Z) : bool := (0 <=? i) && (i <? MAX_NUM_FILES).

Definition access_ok (a : Access) : bool := in_bounds (access_index a).

(** ** The collaborators

    The MP3 decoder library, the SD card and the memory around the
    [filename] array are not part of the sketch: they are a parameter.
    [playMP3] returns the library's result byte (0 = playback started). *)

Record World : Type := mkWorld {
  Audio : Type;
  playMP3 : string -> Audio -> Z * Audio;
  stopTrack : Audio -> Audio;
  isPlaying : Audio -> bool;
  currentPosition : Audio -> Z;
  setVolume : Z -> Z -> Audio -> Audio;
  (** the result bytes of [sd.begin(...)] and [MP3player.begin()] *)
  sd_begin : Z;
  MP3player_begin : Z;
  (** entries of the root directory in [openNext] order: name, [isDir] *)
  sd_root : list (string * bool);
  (** [sd.chdir(name)] fails ([None]) or succeeds and [openNext] then
      yields these names in order *)
  sd_list : string -> option (list string);
  (** what a read outside the [filename] array finds *)
  stray : Z -> string
}.

Section Sketch.

Variable W : World.

(** ** Global variables of the sketch (lines 119-140), the state of the
    MP3 decoder, and the two logs *)

Record State : Type := mkState {
  dirname : list string;             (* char dirname[5][13] *)
  filename : list string;            (* char filename[MAX_NUM_FILES][13] *)
  result : Z;                        (* byte *)
  last_dir : Z;                      (* byte, 0 = none *)
  last_file : Z;                     (* byte, 0 = none *)
  volume : Z;                        (* byte *)
  target_vol : Z;                    (* byte *)
  target_vol_range : Z;              (* byte *)
  nextTrackSwitchOn : bool;
  previousTrackSwitchOn : bool;
  buttonLastChecked : Z;             (* long *)
  sleepCounter : Z;                  (* long *)
  player : Audio W;
  trace : list Event;
  subscripts : list Access
}.

Definition set_dirname (v : list string) (s : State) : State :=
  mkState v (filename s) (result s) (last_dir s) (last_file s) (volume s)
    (target_vol s) (target_vol_range s) (nextTrackSwitchOn s)
    (previousTrackSwitchOn s) (buttonLastChecked s) (sleepCounter s)
    (player s) (trace s) (subscripts s).

Definition set_filename (v : list string) (s : State) : State :=
  mkState (dirname s) v (result s) (last_dir s) (last_file s) (volume s)
    (target_vol s) (target_vol_range s) (nextTrackSwitchOn s)
    (previousTrackSwitchOn s) (buttonLastChecked s) (sleepCounter s)
    (player s) (trace s) (subscripts s).

Definition set_result (v : Z) (s : State) : State :=
  mkState (dirname s) (filename s) v (last_dir s) (last_file s) (volume s)
    (target_vol s) (target_vol_range s) (nextTrackSwitchOn s)
    (previousTrackSwitchOn s) (buttonLastChecked s) (sleepCounter s)
    (player s) (trace s) (subscripts s).

Definition set_last_dir (v : Z) (s : State) : State :=
  mkState (dirname s) (filename s) (result s) v (last_file s) (volume s)
    (target_vol s) (target_vol_range s) (nextTrackSwitchOn s)
    (previousTrackSwitchOn s) (buttonLastChecked s) (sleepCounter s)
    (player s) (trace s) (subscripts s).

Definition set_last_file (v : Z) (s : State) : State :=
  mkState (dirname s) (filename s) (result s) (last_dir s) v (volume s)
    (target_vol s) (target_vol_range s) (nextTrackSwitchOn s)
    (previousTrackSwitchOn s) (buttonLastChecked s) (sleepCounter s)
    (player s) (trace s) (subscripts s).

Definition set_volume (v : Z) (s : State) : State :=
  mkState (dirname s) (filename s) (result s) (last_dir s) (last_file s) v
    (target_vol s) (target_vol_range s) (nextTrackSwitchOn s)
    (previousTrackSwitchOn s) (buttonLastChecked s) (sleepCounter s)
    (player s) (trace s) (subscripts s).

Definition set_target_vol (v : Z) (s : State) : State :=
  mkState (dirname s) (filename s) (result s) (last_dir s) (last_file s)
    (volume s) v (target_vol_range s) (nextTrackSwitchOn s)
    (previousTrackSwitchOn s) (buttonLastChecked s) (sleepCounter s)
    (player s) (trace s) (subscripts s).

Definition set_target_vol_range (v : Z) (s : State) : State :=
  mkState (dirname s) (filename s) (result s) (last_dir s) (last_file s)
    (volume s) (target_vol s) v (nextTrackSwitchOn s)
    (previousTrackSwitchOn s) (buttonLastChecked s) (sleepCounter s)
    (player s) (trace s) (subscripts s).

Definition set_nextTrackSwitchOn (v : bool) (s : State) : State :=
  mkState (dirname s) (filename s) (result s) (last_dir s) (last_file s)
    (volume s) (target_vol s) (target_vol_range s) v
    (previousTrackSwitchOn s) (buttonLastChecked s) (sleepCounter s)
    (player s) (trace s) (subscripts s).

Definition set_previousTrackSwitchOn (v : bool) (s : State) : State :=
  mkState (dirname s) (filename s) (result s) (last_dir s) (last_file s)
    (volume s) (target_vol s) (target_vol_range s) (nextTrackSwitchOn s)
    v (buttonLastChecked s) (sleepCounter s)
    (player s) (trace s) (subscripts s).

Definition set_buttonLastChecked (v : Z) (s : State) : State :=
  mkState (dirname s) (filename s) (result s) (last_dir s) (last_file s)
    (volume s) (target_vol s) (target_vol_range s) (nextTrackSwitchOn s)
    (previousTrackSwitchOn s) v (sleepCounter s)
    (player s) (trace s) (subscripts s).

Definition set_sleepCounter (v : Z) (s : State) : State :=
  mkState (dirname s) (filename s) (result s) (last_dir s) (last_file s)
    (volume s) (target_vol s) (target_vol_range s) (nextTrackSwitchOn s)
    (previousTrackSwitchOn s) (buttonLastChecked s) v
    (player s) (trace s) (subscripts s).

Definition set_player (v : Audio W) (s : State) : State :=
  mkState (dirname s) (filename s) (result s) (last_dir s) (last_file s)
    (volume s) (target_vol s) (target_vol_range s) (nextTrackSwitchOn s)
    (previousTrackSwitchOn s) (buttonLastChecked s) (sleepCounter s)
    v (trace s) (subscripts s).

Definition emit (e : Event) (s : State) : State :=
  mkState (dirname s) (filename s) (result s) (last_dir s) (last_file s)
    (volume s) (target_vol s) (target_vol_range s) (nextTrackSwitchOn s)
    (previousTrackSwitchOn s) (buttonLastChecked s) (sleepCounter s)
    (player s) (trace s ++ [e]) (subscripts s).

Definition touch (a : Access) (s : State) : State :=
  mkState (dirname s) (filename s) (result s) (last_dir s) (last_file s)
    (volume s) (target_vol s) (target_vol_range s) (nextTrackSwitchOn s)
    (previousTrackSwitchOn s) (buttonLastChecked s) (sleepCounter s)
    (player s) (trace s) (subscripts s ++ [a]).

(** The globals as the C++ start-up code leaves them (zero-filled arrays,
    the initialisers of lines 128-140), for a decoder in state [a]. *)

Definition boot (a : Audio W) : State :=
  mkState (replicate 5 EmptyString)
    (replicate (Z.to_nat MAX_NUM_FILES) EmptyString)
    0 0 0 50 50 255 false false 0 0 a [] [].

(** ** Calls into the MP3 decoder library *)

Definition MP3player_stopTrack (s : State) : State :=
  emit EvStop (set_player (stopTrack W (player s)) s).

Definition MP3player_isPlaying (s : State) : bool := isPlaying W (player s).

Definition MP3player_currentPosition (s : State) : Z :=
  currentPosition W (player s).

Definition MP3player_playMP3 (name : string) (s : State) : Z * State :=
  let '(code, a) := playMP3 W name (player s) in
  (code, emit (EvPlay name code) (set_player a s)).

Definition MP3player_setVolume (l r : Z) (s : State) : State :=
  emit (EvSetVolume l r) (set_player (setVolume W l r (player s)) s).

(** ** The [filename] array

    Inside the array a row is the string stored there.  Outside the array
    the C++ behaviour is undefined: the model records the subscript, lets
    a read find whatever [stray] holds there and leaves the array as it is
    on a write.  In the compiled sketch such a write lands in the globals
    stored behind the array, so what is proved about the globals of a pass
    that writes outside the array holds for the model only; the log
    [subscripts] tells whether a pass did. *)

Definition filename_read (i : Z) (s : State) : string * State :=
  (if in_bounds i then default EmptyString (filename s !! Z.to_nat i)
   else stray W i,
   touch (AccRead i) s).

Definition filename_strcpy (i : Z) (name : string) (s : State) : State :=
  touch (AccWrite i)
    (if in_bounds i then set_filename (<[Z.to_nat i := name]> (filename s)) s
     else s).

Definition filename_row (i : Z) (s : State) : ptr * State :=
  (FilenameRow i, touch (AccAddr i) s).

(** ** MP3 helper functions (lines 406-458)

    The tests of [playNextTrack] and [playPreviousTrack] compare a row of
    [filename] with the literal [""] by [!=], that is, by address. *)

Definition stopPlayback (s : State) : State := MP3player_stopTrack s.

Definition playMp3File (fileNum : Z) (s : State) : State :=
  let '(name, s) := filename_read (fileNum - 1) s in
  let '(code, s) := MP3player_playMP3 name s in
  let s := set_result code s in
  if code =? 0 then set_last_file fileNum s else s.

Definition playNextTrack (s : State) : State :=
  if last_file s + 1 <=? MAX_NUM_FILES then
    let '(row, s) := filename_row (last_file s) s in
    if bool_decide (row <> Literal EmptyString) then
      let s := MP3player_stopTrack s in
      let s := set_last_file (to_byte (last_file s + 1)) s in
      playMp3File (last_file s) s
    else s
  else s.

Definition playPreviousTrack (s : State) : State :=
  if last_file s - 1 >=? 0 then
    let '(row, s) := filename_row (last_file s - 2) s in
    if bool_decide (row <> Literal EmptyString) then
      let s := MP3player_stopTrack s in
      let s := set_last_file (to_byte (last_file s - 1)) s in
      playMp3File (last_file s) s
    else s
  else s.

(** ** Volume (lines 461-490) *)

Definition setTargetVolumeByRange (val : Z) (s : State) : State :=
  let s := set_target_vol (to_byte (map val 0 5 0 60)) s in
  set_target_vol (to_byte (constrain (target_vol s) 0 60)) s.

Definition adjustVolume (s : State) : State :=
  let s :=
    if volume s <? target_vol s then set_volume (to_byte (volume s + 1)) s
    else if volume s >? target_vol s then set_volume (to_byte (volume s - 1)) s
    else s in
  MP3player_setVolume (volume s) (volume s) s.

(** ** Filesystem helper functions (lines 495-617) *)

Definition first_char (name : string) : Z :=
  match name with
  | EmptyString => 0
  | String c _ => Z.of_nat (Ascii.nat_of_ascii c)
  end.

(** One round of the [while (file.openNext(...))] loop of
    [readRootDirnames]: '1' is 49 and '5' is 53. *)

Definition keep_dirname (s : State) (entry : string * bool) : State :=
  let '(tempdirname, isDir) := entry in
  if (first_char tempdirname >=? 49) && (first_char tempdirname <=? 53) && isDir
  then
    let index := to_byte (first_char tempdirname - 49) in
    set_dirname (<[Z.to_nat index := tempdirname]> (dirname s)) s
  else s.

Definition readRootDirnames (s : State) : State :=
  foldl keep_dirname s (sd_root W).

(** One round of the [while] loop of [readFilenames], on the local
    [index] and the globals: 95 is the underscore. *)

Definition keep_filename (st : Z * State) (tempfilename : string) : Z * State :=
  let '(index, s) := st in
  if negb (first_char tempfilename =? 95) then
    (to_byte (index + 1), filename_strcpy index tempfilename s)
  else (index, s).

Definition readFilenames (dirNum : Z) (s : State) : State :=
  let s := stopPlayback s in
  let index := 0 in
  (* memset(filename, 0, sizeof(filename)) *)
  let s := set_filename (replicate (Z.to_nat MAX_NUM_FILES) EmptyString) s in
  (* sd.chdir(dirname[dirNum - 1], true) and the openNext loop *)
  let dir := default EmptyString (dirname s !! Z.to_nat (dirNum - 1)) in
  let s :=
    match sd_list W dir with
    | None => s
    | Some entries => snd (foldl keep_filename (index, s) entries)
    end in
  let s := set_last_file 0 s in
  playMp3File 1 s.

(** ** Sleep mode (lines 687-761) *)

Definition myAttachInterrupt (s : State) : State := emit EvAttachInterrupt s.
Definition myDetachInterrupt (s : State) : State := emit EvDetachInterrupt s.

Definition sleepNow (s : State) : State :=
  let s := myAttachInterrupt s in
  let s := emit EvSleep s in
  myDetachInterrupt s.

(** ** One pass of [loop()] (lines 236-398)

    What the environment answers during one pass: the value of each of the
    six [millis()] calls, in the order of the source lines, the two analog
    samples and the two switch levels. *)

Record Inputs : Type := mkInputs {
  millis_first : Z;                  (* line 242 *)
  millis_gate : Z;                   (* line 247 *)
  millis_checked : Z;                (* line 333 *)
  millis_idle : Z;                   (* line 379 *)
  millis_sleep : Z;                  (* line 384 *)
  millis_active : Z;                 (* line 389 *)
  analog_directory : Z;              (* analogRead(SET_DIRECTORY_PIN) *)
  analog_volume : Z;                 (* analogRead(SET_VOLUME_PIN) *)
  previousTrackSwitchState : Z;      (* digitalRead(PREVIOUS_TRACK_SWITCH_PIN) *)
  nextTrackSwitchState : Z           (* digitalRead(NEXT_TRACK_SWITCH_PIN) *)
}.

(** Each part takes and returns the local [detectedInteraction] next to
    the globals. *)

(** Lines 252-309: the directory selector.  The test of line 263,
    [!dirname[buttNum - 1]], asks whether the address of a row of
    [dirname] is the null pointer. *)

Definition checkDirectory (i : Inputs) (detectedInteraction : bool) (s : State)
  : bool * State :=
  let buttNum := buttonPushed (analog_directory i) in
  if negb (buttNum =? 0) then
    if negb (buttNum =? last_dir s) then
      let s := set_last_dir (to_byte buttNum) s in
      let detectedInteraction := true in
      if bool_decide (DirnameRow (buttNum - 1) = NullPtr) then
        (detectedInteraction, s)
      else
        let s := if MP3player_isPlaying s then stopPlayback s else s in
        (detectedInteraction, readFilenames (to_byte buttNum) s)
    else
      (detectedInteraction,
       if negb (MP3player_isPlaying s) then playNextTrack s else s)
  else
    let '(detectedInteraction, s) :=
      if MP3player_isPlaying s then (true, stopPlayback s)
      else (detectedInteraction, s) in
    (detectedInteraction, set_last_file 0 (set_last_dir 0 s)).

(** Lines 314-331: the volume selector. *)

Definition checkVolume (i : Inputs) (detectedInteraction : bool) (s : State)
  : bool * State :=
  let buttNum := buttonPushed (analog_volume i) in
  if negb (buttNum =? 0) then
    if negb (buttNum =? target_vol_range s) then
      let s := set_target_vol_range (to_byte buttNum) s in
      let s := setTargetVolumeByRange (to_byte buttNum) s in
      (true, s)
    else (detectedInteraction, s)
  else (detectedInteraction, s).

(** Lines 241-334: the rate-limited check of the two voltage dividers. *)

Definition checkVoltageDividers (i : Inputs) (detectedInteraction : bool)
  (s : State) : bool * State :=
  let s :=
    if buttonLastChecked s =? 0
    then set_buttonLastChecked (to_long (millis_first i + BUTTONDELAY)) s
    else s in
  if to_ulong (millis_gate i - buttonLastChecked s) >? BUTTONDELAY then
    let '(detectedInteraction, s) := checkDirectory i detectedInteraction s in
    let '(detectedInteraction, s) := checkVolume i detectedInteraction s in
    (detectedInteraction, set_buttonLastChecked (to_long (millis_checked i)) s)
  else (detectedInteraction, s).

(** Lines 339-372: the two track switches. *)

Definition checkPreviousSwitch (i : Inputs) (s : State) : State :=
  if negb DEBUG && (last_dir s >? 0)
     && (previousTrackSwitchState i =? LOW) && negb (previousTrackSwitchOn s)
  then
    let s :=
      if MP3player_currentPosition s >=? 3000 then
        let s := stopPlayback s in
        playMp3File (last_file s) s
      else playPreviousTrack s in
    set_previousTrackSwitchOn true s
  else set_previousTrackSwitchOn false s.

Definition checkNextSwitch (i : Inputs) (s : State) : State :=
  if (last_dir s >? 0)
     && (nextTrackSwitchState i =? LOW) && negb (nextTrackSwitchOn s)
  then
    let s := playNextTrack s in
    set_nextTrackSwitchOn true s
  else set_nextTrackSwitchOn false s.

Definition checkSwitches (i : Inputs) (detectedInteraction : bool) (s : State)
  : bool * State :=
  let s := checkPreviousSwitch i s in
  let s := checkNextSwitch i s in
  (if nextTrackSwitchState i =? LOW then true else detectedInteraction, s).

(** Lines 377-390: sleep mode. *)

Definition handleSleep (i : Inputs) (detectedInteraction : bool) (s : State)
  : State :=
  if negb detectedInteraction && negb (MP3player_isPlaying s) then
    if to_ulong (millis_idle i - sleepCounter s) >=? SLEEP_DELAY then
      let s := set_sleepCounter (to_long (millis_sleep i)) s in
      sleepNow s
    else s
  else set_sleepCounter (to_long (millis_active i)) s.

(** Everything of a pass before the sleep decision, with the value
    [detectedInteraction] has reached there. *)

Definition checkInputs (i : Inputs) (s : State) : bool * State :=
  let detectedInteraction := false in
  let '(detectedInteraction, s) :=
    checkVoltageDividers i detectedInteraction s in
  checkSwitches i detectedInteraction s.

Definition loop (i : Inputs) (s : State) : State :=
  let '(detectedInteraction, s) := checkInputs i s in
  let s := handleSleep i detectedInteraction s in
  adjustVolume s.

(** Consecutive passes, one per element of [inputs]. *)

Definition run (inputs : list Inputs) (s : State) : State :=
  foldl (fun s i => loop i s) s inputs.

(** [setup()] as far as the globals go: the two start-up results stored
    in [result] (lines 188 and 201) and the directory names (line 219). *)

Definition setup (s : State) : State :=
  let s := set_result (sd_begin W) s in
  let s := set_result (MP3player_begin W) s in
  readRootDirnames s.

End Sketch.

Arguments dirname {W} s.
Arguments filename {W} s.
Arguments result {W} s.
Arguments last_dir {W} s.
Arguments last_file {W} s.
Arguments volume {W} s.
Arguments target_vol {W} s.
Arguments target_vol_range {W} s.
Arguments nextTrackSwitchOn {W} s.
Arguments previousTrackSwitchOn {W} s.
Arguments buttonLastChecked {W} s.
Arguments sleepCounter {W} s.
Arguments player {W} s.
Arguments trace {W} s.
Arguments subscripts {W} s.

(** ** A bench set-up: one concrete decoder and SD card

    The decoder refuses a new track while one plays (result 1), fails on a
    name it cannot open (result 2) and otherwise starts the track at
    position 0.  The card is given by its root entries, by the names
    [openNext] yields per directory, and by the names the decoder can
    open; card and decoder start up without error ([sd.begin] answers 1,
    [MP3player.begin] answers 0). *)

Module Bench.

Record Deck : Type := mkDeck {
  deck_playing : bool;
  deck_position : Z;
  deck_level : Z * Z
}.

Definition deck_play (tracks : list string) (name : string) (d : Deck)
  : Z * Deck :=
  if deck_playing d then (1, d)
  else if bool_decide (name ∈ tracks) then (0, mkDeck true 0 (deck_level d))
  else (2, d).

Definition deck_stop (d : Deck) : Deck :=
  mkDeck false (deck_position d) (deck_level d).

Definition deck_setVolume (l r : Z) (d : Deck) : Deck :=
  mkDeck (deck_playing d) (deck_position d) (l, r).

Definition card_list (dirs : list (string * list string)) (name : string)
  : option (list string) :=
  (fun found => snd (snd found)) <$> list_find (fun entry => fst entry = name) dirs.

Definition world (root : list (string * bool))
  (dirs : list (string * list string)) (tracks : list string) : World :=
  mkWorld Deck (deck_play tracks) deck_stop deck_playing deck_position
    deck_setVolume 1 0 root (card_list dirs) (fun _ => "?"%string).

Definition idle : Deck := mkDeck false 0 (0, 0).

(** A card with one directory, for position 3, holding [names]; the
    decoder can open [tracks]. *)

Definition card3 (names tracks : list string) : World :=
  world [("3SONGS"%string, true)] [("3SONGS"%string, names)] tracks.

Definition three_tracks : World :=
  card3 ["A.MP3"; "B.MP3"; "C.MP3"]%string ["A.MP3"; "B.MP3"; "C.MP3"]%string.

Definition one_track : World := card3 ["A.MP3"%string] ["A.MP3"%string].

(** The second file of the directory cannot be opened by the decoder. *)

Definition second_unreadable : World :=
  card3 ["A.MP3"; "B.MP3"]%string ["A.MP3"%string].

(** The directory holds [n] files "T.MP3". *)

Definition many_tracks (n : nat) : World :=
  card3 (replicate n "T.MP3"%string) ["T.MP3"%string].

(** A card without any directory. *)

Definition blank : World := world [] [] [].

(** A pass at time [now] with both selectors and both switches as given. *)

Definition pass (now directory volume previous next : Z) : Inputs :=
  mkInputs now now now now now now directory volume previous next.

(** Raw samples: 500 lies in the band of position 3, 800 in the band of
    position 1, and 1023 is the open selector. *)

Definition at3 : Z := 500.
Definition at1 : Z := 800.
Definition open : Z := 1023.

(** Power-up, [setup()], and a first pass at 2000 ms with the directory
    selector on position 3 and nothing else touched. *)

Definition select3 (W : World) (a : Audio W) : State W :=
  loop W (pass 2000 at3 open HIGH HIGH) (setup W (boot W a)).

(** The decoder has reached the end of the track. *)

Definition track_ended (W : World) (stopped : Audio W) (s : State W) : State W :=
  set_player W stopped s.

(** Track 1 of the three-track card plays, started by [select3]. *)

Definition playing3 : State three_tracks := select3 three_tracks idle.

(** A pass at 4000 ms with both selectors open and no switch pressed. *)

Definition release : Inputs := pass 4000 open open HIGH HIGH.

(** The blank card after power-up, and a pass at 30000 ms with nothing
    touched. *)

Definition powered_up : State blank := setup blank (boot blank idle).
Definition late : Inputs := pass 30000 open open HIGH HIGH.

(** Power-up values with the target volume raised to 60. *)

Definition fading : State blank := set_target_vol blank 60 (boot blank idle).

End Bench.

(** ** Vocabulary of the properties *)

(** Number of [setVolume] calls in a log. *)

Definition is_setVolume (e : Event) : bool :=
  match e with EvSetVolume _ _ => true | _ => false end.

Definition setVolume_calls (t : list Event) : nat :=
  length (filter (fun e => is_setVolume e = true) t).

(** Number of [playMP3] calls in a log. *)

Definition is_play (e : Event) : bool :=
  match e with EvPlay _ _ => true | _ => false end.

Definition play_calls (t : list Event) : nat :=
  length (filter (fun e => is_play e = true) t).

(** Number of rows of the [filename] array that hold a name. *)

Definition populated (files : list string) : nat :=
  length (filter (fun name => name <> EmptyString) files).

(** [s'] differs from [s] by playback and bookkeeping only: the volume
    settings and the idle timer are the same and no [setVolume] was issued
    in between. *)

Definition controls_kept {W : World} (s s' : State W) : Prop :=
  volume s' = volume s /\ target_vol s' = target_vol s
  /\ target_vol_range s' = target_vol_range s
  /\ sleepCounter s' = sleepCounter s
  /\ setVolume_calls (trace s') = setVolume_calls (trace s).

(** Unsigned difference [millis() - sleepCounter] of line 379. *)

Definition idle_time {W : World} (i : Inputs) (s : State W) : Z :=
  to_ulong (millis_idle i - sleepCounter s).

(** The rate limit of lines 241-247 lets the selectors be read in this
    pass. *)

Definition selectors_due {W : World} (i : Inputs) (s : State W) : bool :=
  to_ulong (millis_gate i
            - (if buttonLastChecked s =? 0
               then to_long (millis_first i + BUTTONDELAY)
               else buttonLastChecked s)) >? BUTTONDELAY.

(** The log of a pass that entered sleep mode ends with these calls. *)

Definition sleep_calls : list Event :=
  [EvAttachInterrupt; EvSleep; EvDetachInterrupt].

(** The selector sample of this pass is a new nonzero position (the tests
    of lines 252-255 and 314-317). *)

Definition directory_trigger {W : World} (i : Inputs) (s : State W) : bool :=
  negb (buttonPushed (analog_directory i) =? 0)
  && negb (buttonPushed (analog_directory i) =? last_dir s).

Definition volume_trigger {W : World} (i : Inputs) (s : State W) : bool :=
  negb (buttonPushed (analog_volume i) =? 0)
  && negb (buttonPushed (analog_volume i) =? target_vol_range s).

(** ** Further vocabulary *)

(** The samples of the domain 0..1023 that lie in none of the five
    bands: the two gaps between bands and the top range. *)

Definition in_gap (val : Z) : Prop :=
  361 <= val <= 379 \/ 561 <= val <= 579.

Definition in_top_range (val : Z) : Prop := 981 <= val <= 1023.

(** The ranges the globals stay in. *)

Definition state_ok {W : World} (s : State W) : Prop :=
  length (dirname s) = 5%nat
  /\ length (filename s) = Z.to_nat MAX_NUM_FILES
  /\ 0 <= last_dir s <= 5
  /\ 0 <= last_file s <= MAX_NUM_FILES
  /\ 0 <= volume s <= 60
  /\ 0 <= target_vol s <= 60.

(** A root entry that [readRootDirnames] copies into row [k] of
    [dirname]: a directory whose name starts with the digit [k + 1]. *)

Definition registers (k : nat) (entry : string * bool) : bool :=
  (first_char (fst entry) =? 49 + Z.of_nat k) && snd entry.

(** A name that [readFilenames] copies into [filename]. *)

Definition eligible (name : string) : bool := negb (first_char name =? 95).

(** Calls that start or stop a track, and calls to the power hardware. *)

Definition is_playback (e : Event) : bool :=
  match e with EvStop | EvPlay _ _ => true | _ => false end.

Definition is_power (e : Event) : bool :=
  match e with
  | EvAttachInterrupt | EvSleep | EvDetachInterrupt => true
  | _ => false
  end.

Definition power_events (t : list Event) : list Event :=
  filter (fun e => is_power e = true) t.

(** [s'] continues the log of [s] with calls that start or stop a track
    and nothing else. *)

Definition playback_only {W : World} (s s' : State W) : Prop :=
  exists calls, trace s' = trace s ++ calls
                /\ forallb is_playback calls = true.

(** The subscripts [s'] has used on [filename] since [s] are inside the
    array. *)

Definition subscripts_ok_since {W : World} (s s' : State W) : Prop :=
  exists used, subscripts s' = subscripts s ++ used
               /\ forallb access_ok used = true.

(** [n] volume ticks in a row. *)

Definition fade {W : World} (n : nat) (s : State W) : State W :=
  Nat.iter n (adjustVolume W) s.

(** Consecutive samplings of the next-track switch. *)

Definition nextSwitchRun {W : World} (inputs : list Inputs) (s : State W)
  : State W :=
  foldl (fun s i => checkNextSwitch W i s) s inputs.

(** ** The pin-change interrupt registers (lines 687-705)

    [PCICR], [PCMSK1] and [PCMSK2] as 8-bit values.  [PCIFR] is left out:
    a write to it clears flags in the hardware and stores nothing. *)

Module Pcint.

Record Registers : Type := mkRegisters {
  PCICR : Z;
  PCMSK1 : Z;
  PCMSK2 : Z
}.

Definition myAttachInterrupt (r : Registers) : Registers :=
  mkRegisters (Z.lor (PCICR r) 6)      (* PCICR |= 0b00000110 *)
              (Z.lor (PCMSK1 r) 49)    (* PCMSK1 |= 0b00110001 *)
              (Z.lor (PCMSK2 r) 3).    (* PCMSK2 |= 0b00000011 *)

Definition myDetachInterrupt (r : Registers) : Registers :=
  mkRegisters 0 0 0.

(** The registers around the [sleep_mode()] call of [sleepNow]. *)

Definition asleep (r : Registers) : Registers := myAttachInterrupt r.
Definition awake (r : Registers) : Registers :=
  myDetachInterrupt (myAttachInterrupt r).

End Pcint.

(** [s'] has the rate-limit clock and the directory names of [s]. *)

Definition setup_kept {W : World} (s s' : State W) : Prop :=
  buttonLastChecked s' = buttonLastChecked s /\ dirname s' = dirname s.

(** The ranges of the track bookkeeping. *)

Definition tracks_ok {W : World} (s : State W) : Prop :=
  length (dirname s) = 5%nat
  /\ length (filename s) = Z.to_nat MAX_NUM_FILES
  /\ 0 <= last_dir s <= 5
  /\ 0 <= last_file s <= MAX_NUM_FILES.

(** Every directory of the card has at most MAX_NUM_FILES names that
    [readFilenames] copies. *)

Definition card_fits (W : World) : Prop :=
  forall dir entries,
    sd_list W dir = Some entries ->
    (length (filter (fun name => eligible name = true) entries)
     <= Z.to_nat MAX_NUM_FILES)%nat.

(** * Properties *)

(** Case analysis on the integer comparisons of a goal. *)

Ltac zcases :=
  repeat rewrite Z.gtb_ltb in *; repeat rewrite Z.geb_leb in *;
  repeat match goal with
  | |- context [?a <=? ?b] => destruct (Z.leb_spec a b)
  | |- context [?a <? ?b] => destruct (Z.ltb_spec a b)
  | |- context [?a =? ?b] => destruct (Z.eqb_spec a b)
  end; simpl in *.

(** ** The decoder *)

Lemma buttonPushed_range val : 0 <= buttonPushed val <= 5.
Proof. unfold buttonPushed. zcases; lia. Qed.

Lemma to_byte_small z : 0 <= z < 256 -> to_byte z = z.
Proof. intros H. unfold to_byte. apply Z.mod_small. lia. Qed.

Lemma to_byte_buttonPushed val : to_byte (buttonPushed val) = buttonPushed val.
Proof. apply to_byte_small. pose proof (buttonPushed_range val). lia. Qed.

Lemma buttonPushed_cases val :
  (buttonPushed val = 1 /\ 751 <= val <= 980)
  \/ (buttonPushed val = 2 /\ 580 <= val <= 750)
  \/ (buttonPushed val = 3 /\ 380 <= val <= 560)
  \/ (buttonPushed val = 4 /\ 241 <= val <= 360)
  \/ (buttonPushed val = 5 /\ 0 <= val <= 240)
  \/ (buttonPushed val = 0
      /\ (val < 0 \/ 361 <= val <= 379 \/ 561 <= val <= 579 \/ 980 < val)).
Proof. unfold buttonPushed. zcases; lia. Qed.

Lemma in_band_cases p val :
  in_band p val
  <-> (p = 1 /\ 751 <= val <= 980) \/ (p = 2 /\ 580 <= val <= 750)
      \/ (p = 3 /\ 380 <= val <= 560) \/ (p = 4 /\ 241 <= val <= 360)
      \/ (p = 5 /\ 0 <= val <= 240).
Proof.
  unfold in_band, band_lo, band_hi. split.
  - intros [Hp Hb].
    assert (p = 1 \/ p = 2 \/ p = 3 \/ p = 4 \/ p = 5) as Hc by lia.
    destruct Hc as [-> | [-> | [-> | [-> | ->]]]]; simpl in Hb; lia.
  - intros [[-> H] | [[-> H] | [[-> H] | [[-> H] | [-> H]]]]]; simpl; lia.
Qed.

(** C9 as stated fails between the bands: the sample 370 lies in the
    domain and below the top range, no declared band holds it, and it is
    decoded to 0: the five bands are not exhaustive below the top
    range. *)
Lemma buttonPushed_gap_sample :
  0 <= 370 <= 1023
  /\ ~ in_top_range 370
  /\ (forall p, ~ in_band p 370)
  /\ band_hi 4 < 370 < band_lo 3
  /\ buttonPushed 370 = 0.
Proof.
  split; [lia |]. split; [unfold in_top_range; lia |].
  split; [| split; [vm_compute; split; reflexivity | reflexivity]].
  intros p Hp. apply in_band_cases in Hp. lia.
Qed.

(** C9, amended: every raw sample in 0..1023 is decoded to one position in
    0..5; position p in 1..5 is returned exactly on the p-th declared
    band; the bands do not overlap and lie in descending order of raw
    magnitude, band 1 being the highest.  The bands are not exhaustive:
    the domain is the five bands, the two gaps 361..379 and 561..579
    between bands, and the top range 981..1023; a sample is decoded to 0
    exactly when it lies in a gap or in the top range. *)
Theorem buttonPushed_bands (val : Z) (Hval : 0 <= val <= 1023) :
  0 <= buttonPushed val <= 5
  /\ (forall p, 1 <= p <= 5 -> buttonPushed val = p <-> in_band p val)
  /\ (forall p q, in_band p val -> in_band q val -> p = q)
  /\ (forall p q, 1 <= p -> p < q -> q <= 5 ->
        0 <= band_lo q /\ band_lo q <= band_hi q /\ band_hi q < band_lo p
        /\ band_hi p <= 1023)
  /\ (buttonPushed val = 0 <-> in_gap val \/ in_top_range val)
  /\ ((exists p, in_band p val) \/ in_gap val \/ in_top_range val)
  /\ (forall p, in_band p val -> ~ in_gap val /\ ~ in_top_range val)
  /\ band_hi 4 + 1 = 361 /\ band_lo 3 - 1 = 379
  /\ band_hi 3 + 1 = 561 /\ band_lo 2 - 1 = 579
  /\ band_hi 1 + 1 = 981.
Proof.
  pose proof (buttonPushed_cases val) as Hcases.
  split; [apply buttonPushed_range |].
  split.
  { intros p Hp. rewrite in_band_cases. split.
    - intros <-.
      destruct Hcases as [H | [H | [H | [H | [H | H]]]]]; intuition lia.
    - intros Hin.
      destruct Hcases as [H | [H | [H | [H | [H | H]]]]]; intuition lia. }
  split.
  { intros p q Hp%in_band_cases Hq%in_band_cases. intuition lia. }
  split.
  { intros p q Hp Hpq Hq. unfold band_lo, band_hi.
    assert (p = 1 \/ p = 2 \/ p = 3 \/ p = 4) as Hc by lia.
    assert (q = 2 \/ q = 3 \/ q = 4 \/ q = 5) as Hd by lia.
    destruct Hc as [-> | [-> | [-> | ->]]];
      destruct Hd as [-> | [-> | [-> | ->]]]; simpl; lia. }
  split.
  { unfold in_gap, in_top_range.
    destruct Hcases as [H | [H | [H | [H | [H | H]]]]]; intuition lia. }
  split.
  { destruct Hcases as [H | [H | [H | [H | [H | H]]]]];
      [left; exists 1 | left; exists 2 | left; exists 3 | left; exists 4
       | left; exists 5 | right];
      try (apply in_band_cases; intuition lia).
    unfold in_gap, in_top_range. intuition lia. }
  split.
  { intros p Hp%in_band_cases. unfold in_gap, in_top_range. intuition lia. }
  repeat split; reflexivity.
Qed.

Lemma buttonPushed_bands_witness :
  buttonPushed 700 = 2 /\ buttonPushed 1000 = 0 /\ buttonPushed 370 = 0.
Proof.
  assert (H700 : 0 <= 700 <= 1023) by lia.
  assert (H1000 : 0 <= 1000 <= 1023) by lia.
  assert (H370 : 0 <= 370 <= 1023) by lia.
  split; [| split].
  - apply (proj1 (proj2 (buttonPushed_bands 700 H700)) 2); [lia |].
    unfold in_band, band_lo, band_hi. simpl. lia.
  - apply (proj1 (proj2 (proj2 (proj2 (proj2 (buttonPushed_bands 1000 H1000)))))).
    right. unfold in_top_range. lia.
  - apply (proj1 (proj2 (proj2 (proj2 (proj2 (buttonPushed_bands 370 H370)))))).
    left. unfold in_gap. lia.
Defined.

(** ** Volume *)

Lemma setVolume_calls_app t u :
  setVolume_calls (t ++ u) = (setVolume_calls t + setVolume_calls u)%nat.
Proof. unfold setVolume_calls. by rewrite filter_app, length_app. Qed.

Section Frames.

Variable W : World.
Implicit Types s : State W.

Lemma controls_kept_refl s : controls_kept s s.
Proof. by unfold controls_kept. Qed.

Lemma controls_kept_trans s1 s2 s3 :
  controls_kept s1 s2 -> controls_kept s2 s3 -> controls_kept s1 s3.
Proof.
  unfold controls_kept. intros (? & ? & ? & ? & ?) (? & ? & ? & ? & ?).
  repeat split; congruence.
Qed.

Lemma controls_kept_emit e s :
  is_setVolume e = false -> controls_kept s (emit W e s).
Proof.
  intros He. unfold controls_kept. simpl. rewrite setVolume_calls_app.
  unfold setVolume_calls at 2. rewrite filter_cons_False by (by rewrite He).
  simpl. lia.
Qed.

Lemma stopTrack_controls_kept s : controls_kept s (MP3player_stopTrack W s).
Proof.
  unfold MP3player_stopTrack.
  eapply controls_kept_trans; [| by apply controls_kept_emit]. by unfold controls_kept.
Qed.

Lemma playMp3File_controls_kept fileNum s :
  controls_kept s (playMp3File W fileNum s).
Proof.
  unfold playMp3File, filename_read, MP3player_playMP3. simpl.
  destruct (playMP3 W _ _) as [code a]. simpl.
  assert (controls_kept s (emit W (EvPlay
    (if in_bounds (fileNum - 1)
     then default EmptyString (filename s !! Z.to_nat (fileNum - 1))
     else stray W (fileNum - 1)) code)
    (set_player W a (touch W (AccRead (fileNum - 1)) s)))) as H.
  { eapply controls_kept_trans; [| by apply controls_kept_emit]. by unfold controls_kept. }
  destruct (code =? 0); exact H.
Qed.

Lemma playNextTrack_controls_kept s : controls_kept s (playNextTrack W s).
Proof.
  unfold playNextTrack. destruct (_ <=? _); [| apply controls_kept_refl].
  simpl.
  eapply controls_kept_trans; [| apply playMp3File_controls_kept].
  eapply controls_kept_trans; [| apply stopTrack_controls_kept].
  by unfold controls_kept.
Qed.

Lemma playPreviousTrack_controls_kept s : controls_kept s (playPreviousTrack W s).
Proof.
  unfold playPreviousTrack. destruct (_ >=? _); [| apply controls_kept_refl].
  simpl.
  eapply controls_kept_trans; [| apply playMp3File_controls_kept].
  eapply controls_kept_trans; [| apply stopTrack_controls_kept].
  by unfold controls_kept.
Qed.

Lemma keep_filename_controls_kept entries index s :
  controls_kept s (snd (foldl (keep_filename W) (index, s) entries)).
Proof.
  revert index s. induction entries as [| e entries IH]; intros index s.
  - apply controls_kept_refl.
  - simpl. destruct (negb _).
    + eapply controls_kept_trans; [| apply IH].
      unfold filename_strcpy. destruct (in_bounds index); by unfold controls_kept.
    + apply IH.
Qed.

Lemma readFilenames_controls_kept dirNum s :
  controls_kept s (readFilenames W dirNum s).
Proof.
  unfold readFilenames, stopPlayback.
  eapply controls_kept_trans; [| apply playMp3File_controls_kept].
  eapply controls_kept_trans; [apply stopTrack_controls_kept |].
  match goal with |- context [sd_list W ?d] => destruct (sd_list W d) as [entries|] end.
  - eapply controls_kept_trans;
      [| eapply controls_kept_trans;
           [apply (keep_filename_controls_kept entries 0) | by unfold controls_kept]].
    by unfold controls_kept.
  - by unfold controls_kept.
Qed.

Lemma checkDirectory_controls_kept i d s :
  controls_kept s (snd (checkDirectory W i d s)).
Proof.
  unfold checkDirectory, stopPlayback.
  destruct (negb (_ =? 0)); [destruct (negb (_ =? last_dir s)) |].
  - rewrite bool_decide_false by done. simpl.
    eapply controls_kept_trans; [| apply readFilenames_controls_kept].
    destruct (MP3player_isPlaying _ _).
    + eapply controls_kept_trans; [| apply stopTrack_controls_kept]. by unfold controls_kept.
    + by unfold controls_kept.
  - simpl. destruct (negb _); [apply playNextTrack_controls_kept | apply controls_kept_refl].
  - destruct (MP3player_isPlaying W s); simpl.
    + eapply controls_kept_trans; [apply stopTrack_controls_kept | by unfold controls_kept].
    + by unfold controls_kept.
Qed.

Lemma checkSwitches_controls_kept i d s :
  controls_kept s (snd (checkSwitches W i d s)).
Proof.
  unfold checkSwitches. simpl.
  eapply controls_kept_trans with (s2 := checkPreviousSwitch W i s).
  - unfold checkPreviousSwitch. destruct (_ && _); [| by unfold controls_kept].
    eapply controls_kept_trans; [| by unfold controls_kept].
    destruct (_ >=? _); [| apply playPreviousTrack_controls_kept].
    eapply controls_kept_trans; [apply stopTrack_controls_kept |].
    apply playMp3File_controls_kept.
  - unfold checkNextSwitch. destruct (_ && _); [| by unfold controls_kept].
    eapply controls_kept_trans; [apply playNextTrack_controls_kept | by unfold controls_kept].
Qed.

Lemma handleSleep_volume i d s :
  let s' := handleSleep W i d s in
  volume s' = volume s /\ target_vol s' = target_vol s
  /\ setVolume_calls (trace s') = setVolume_calls (trace s).
Proof.
  unfold handleSleep. destruct (_ && _); [| done].
  destruct (_ >=? _); [| done].
  unfold sleepNow, myAttachInterrupt, myDetachInterrupt. simpl.
  repeat rewrite setVolume_calls_app. unfold setVolume_calls. simpl.
  repeat split. lia.
Qed.

Lemma setTargetVolumeByRange_spec val s :
  let s' := setTargetVolumeByRange W val s in
  0 <= target_vol s' <= 60 /\ volume s' = volume s /\ trace s' = trace s.
Proof.
  unfold setTargetVolumeByRange. simpl. repeat split; try done.
  - unfold to_byte, constrain. zcases; apply Z.mod_pos_bound; lia.
  - unfold constrain. zcases.
    + rewrite to_byte_small; lia.
    + rewrite to_byte_small; lia.
    + rewrite to_byte_small; lia.
Qed.

(** Positions 1..5 map linearly onto the target volume. *)

Lemma setTargetVolumeByRange_linear val s :
  0 <= val <= 5 -> target_vol (setTargetVolumeByRange W val s) = 12 * val.
Proof.
  intros H. unfold setTargetVolumeByRange, map, constrain. simpl.
  replace (Z.quot ((val - 0) * (60 - 0)) (5 - 0) + 0) with (12 * val).
  - rewrite (to_byte_small (12 * val)) by lia. zcases; try lia.
    apply to_byte_small; lia.
  - rewrite Z.add_0_r. replace ((val - 0) * (60 - 0)) with (12 * val * 5) by lia.
    replace (5 - 0) with 5 by lia. by rewrite Z.quot_mul.
Qed.

Lemma checkVolume_volume i d s :
  let s' := snd (checkVolume W i d s) in
  volume s' = volume s
  /\ setVolume_calls (trace s') = setVolume_calls (trace s)
  /\ (0 <= target_vol s <= 60 -> 0 <= target_vol s' <= 60).
Proof.
  unfold checkVolume. destruct (negb (_ =? 0)); [| by simpl].
  destruct (negb _); [| by simpl]. cbv zeta. cbn [snd].
  pose proof (setTargetVolumeByRange_spec (to_byte (buttonPushed (analog_volume i)))
    (set_target_vol_range W (to_byte (buttonPushed (analog_volume i))) s))
    as (Ht & Hv & Htr).
  rewrite Hv, Htr. simpl. auto.
Qed.

Lemma checkInputs_volume i s :
  let s' := snd (checkInputs W i s) in
  volume s' = volume s
  /\ setVolume_calls (trace s') = setVolume_calls (trace s)
  /\ (0 <= target_vol s <= 60 -> 0 <= target_vol s' <= 60).
Proof.
  unfold checkInputs.
  destruct (checkVoltageDividers W i false s) as [d1 s1] eqn:E1.
  assert (volume s1 = volume s
          /\ setVolume_calls (trace s1) = setVolume_calls (trace s)
          /\ (0 <= target_vol s <= 60 -> 0 <= target_vol s1 <= 60)) as (Hv & Hc & Ht).
  { unfold checkVoltageDividers in E1.
    set (s0 := if buttonLastChecked s =? 0 then _ else s) in E1.
    assert (controls_kept s s0) as (Hv0 & Ht0 & _ & _ & Hc0).
    { subst s0. destruct (_ =? 0); by unfold controls_kept. }
    destruct (_ >? _).
    - pose proof (checkDirectory_controls_kept i false s0) as (Hv1 & Ht1 & _ & _ & Hc1).
      destruct (checkDirectory W i false s0) as [d2 s2]. simpl in *.
      pose proof (checkVolume_volume i d2 s2) as (Hv2 & Hc2 & Ht2).
      destruct (checkVolume W i d2 s2) as [d3 s3]. simpl in *.
      injection E1 as _ <-. simpl.
      split; [congruence | split; [congruence |]].
      intros. apply Ht2. by rewrite Ht1, Ht0.
    - injection E1 as _ <-. split; [exact Hv0 | split; [exact Hc0 |]].
      intros. by rewrite Ht0. }
  pose proof (checkSwitches_controls_kept i d1 s1) as (Hv' & Ht' & _ & _ & Hc').
  cbv zeta. split; [congruence | split; [congruence |]]. intros. rewrite Ht'. auto.
Qed.

Lemma adjustVolume_trace s :
  trace (adjustVolume W s)
  = trace s ++ [EvSetVolume (volume (adjustVolume W s)) (volume (adjustVolume W s))].
Proof. unfold adjustVolume. zcases; reflexivity. Qed.

Lemma adjustVolume_target s : target_vol (adjustVolume W s) = target_vol s.
Proof. unfold adjustVolume. zcases; reflexivity. Qed.

Lemma adjustVolume_volume s :
  0 <= volume s <= 60 -> 0 <= target_vol s <= 60 ->
  volume (adjustVolume W s)
  = if volume s <? target_vol s then volume s + 1
    else if target_vol s <? volume s then volume s - 1 else volume s.
Proof.
  intros Hv Ht. unfold adjustVolume. zcases; try lia; apply to_byte_small; lia.
Qed.

Lemma loop_volume i s :
  0 <= volume s <= 60 -> 0 <= target_vol s <= 60 ->
  let t := loop W i s in
  setVolume_calls (trace t) = S (setVolume_calls (trace s))
  /\ last (trace t) = Some (EvSetVolume (volume t) (volume t))
  /\ Z.abs (volume t - volume s) <= 1
  /\ 0 <= volume t <= 60 /\ 0 <= target_vol t <= 60.
Proof.
  intros Hvol Htarget. unfold loop.
  pose proof (checkInputs_volume i s) as (Hv1 & Hc1 & Ht1).
  destruct (checkInputs W i s) as [d s1]. cbn [snd] in Hv1, Hc1, Ht1.
  pose proof (handleSleep_volume i d s1) as (Hv2 & Ht2 & Hc2).
  set (s2 := handleSleep W i d s1) in *. cbv zeta.
  assert (0 <= volume s2 <= 60) as Hr2 by (by rewrite Hv2, Hv1).
  assert (0 <= target_vol s2 <= 60) as Hr2' by (rewrite Ht2; auto).
  pose proof (adjustVolume_volume s2 Hr2 Hr2') as Hv3.
  rewrite adjustVolume_target, adjustVolume_trace, Hv3.
  split; [| split; [| split; [| split]]].
  - rewrite setVolume_calls_app. unfold setVolume_calls at 2.
    rewrite filter_cons_True by done. simpl. lia.
  - apply last_snoc.
  - rewrite Hv2, Hv1. zcases; lia.
  - zcases; lia.
  - done.
Qed.

End Frames.

(** C10: from a volume pair inside 0..60, one volume tick ([adjustVolume])
    leaves the target alone and moves the current volume by one toward it,
    or not at all when they are equal; the volume stays inside 0..60 and on
    the same side of the target; exactly one [setVolume] with the new
    current volume is issued.  A whole pass of [loop()] issues exactly one
    [setVolume], the last call of the pass, changes the volume by at most
    one and keeps the pair inside 0..60. *)
Theorem adjustVolume_tick (W : World) (i : Inputs) (s : State W)
  (Hvol : 0 <= volume s <= 60) (Htarget : 0 <= target_vol s <= 60) :
  let s' := adjustVolume W s in
  target_vol s' = target_vol s
  /\ (volume s < target_vol s -> volume s' = volume s + 1)
  /\ (volume s > target_vol s -> volume s' = volume s - 1)
  /\ (volume s = target_vol s -> volume s' = volume s)
  /\ Z.abs (volume s' - volume s) <= 1
  /\ Z.abs (target_vol s - volume s') <= Z.abs (target_vol s - volume s)
  /\ (volume s <= target_vol s -> volume s' <= target_vol s)
  /\ (target_vol s <= volume s -> target_vol s <= volume s')
  /\ 0 <= volume s' <= 60
  /\ trace s' = trace s ++ [EvSetVolume (volume s') (volume s')]
  /\ (let t := loop W i s in
      setVolume_calls (trace t) = S (setVolume_calls (trace s))
      /\ last (trace t) = Some (EvSetVolume (volume t) (volume t))
      /\ Z.abs (volume t - volume s) <= 1
      /\ 0 <= volume t <= 60 /\ 0 <= target_vol t <= 60).
Proof.
  intros s'. subst s'.
  pose proof (adjustVolume_volume W s Hvol Htarget) as Hv.
  rewrite adjustVolume_target, adjustVolume_trace.
  split; [done |].
  split; [revert Hv; zcases; intros; lia |].
  split; [revert Hv; zcases; intros; lia |].
  split; [revert Hv; zcases; intros; lia |].
  split; [revert Hv; zcases; intros; lia |].
  split; [revert Hv; zcases; intros; lia |].
  split; [revert Hv; zcases; intros; lia |].
  split; [revert Hv; zcases; intros; lia |].
  split; [revert Hv; zcases; intros; lia |].
  split; [done |].
  by apply loop_volume.
Qed.

Lemma adjustVolume_tick_witness :
  volume (adjustVolume Bench.blank Bench.fading) = 51
  /\ trace (adjustVolume Bench.blank Bench.fading) = [EvSetVolume 51 51].
Proof.
  assert (Hvol : 0 <= volume Bench.fading <= 60) by (simpl; lia).
  assert (Htarget : 0 <= target_vol Bench.fading <= 60) by (simpl; lia).
  pose proof (adjustVolume_tick Bench.blank Bench.late Bench.fading Hvol Htarget)
    as (_ & Hup & _ & _ & _ & _ & _ & _ & _ & Htrace & _).
  split.
  - apply Hup. simpl. lia.
  - rewrite Htrace. rewrite Hup by (simpl; lia). reflexivity.
Defined.

(** ** Track sequencing *)

Section Playback.

Variable W : World.
Implicit Types s : State W.

(** [playMp3File] itself stores the index only when the decoder reports
    success, and stores the decoder's answer in [result]. *)

Lemma playMp3File_index fileNum s :
  let s' := playMp3File W fileNum s in
  (result s' = 0 -> last_file s' = fileNum)
  /\ (result s' <> 0 -> last_file s' = last_file s).
Proof.
  unfold playMp3File, filename_read, MP3player_playMP3. simpl.
  destruct (playMP3 W _ _) as [code a]. simpl.
  destruct (Z.eqb_spec code 0) as [-> | Hne]; simpl; split; intros; done.
Qed.

Lemma playMp3File_same_index s :
  last_file (playMp3File W (last_file s) s) = last_file s.
Proof.
  pose proof (playMp3File_index (last_file s) s) as [Hok Hko].
  destruct (Z.eq_dec (result (playMp3File W (last_file s) s)) 0); auto.
Qed.

(** [playNextTrack] has moved the index before the decoder answers: below
    the capacity the index goes up by one, whatever the rows hold and
    whatever the decoder answers. *)

Lemma playNextTrack_index s :
  0 <= last_file s -> last_file s + 1 <= MAX_NUM_FILES ->
  last_file (playNextTrack W s) = last_file s + 1.
Proof.
  intros H0 Hcap. unfold playNextTrack.
  destruct (Z.leb_spec (last_file s + 1) MAX_NUM_FILES); [| lia].
  unfold filename_row. rewrite bool_decide_true by done.
  rewrite playMp3File_same_index. simpl.
  apply to_byte_small. unfold MAX_NUM_FILES in *. lia.
Qed.

Lemma playNextTrack_at_capacity s :
  MAX_NUM_FILES < last_file s + 1 -> playNextTrack W s = s.
Proof.
  intros H. unfold playNextTrack.
  destruct (Z.leb_spec (last_file s + 1) MAX_NUM_FILES); [lia | done].
Qed.

(** [playPreviousTrack] moves the index down by one from every index
    above 0, the first track included, and does nothing at index 0. *)

Lemma playPreviousTrack_index s :
  1 <= last_file s <= 255 ->
  last_file (playPreviousTrack W s) = last_file s - 1.
Proof.
  intros H. unfold playPreviousTrack. rewrite Z.geb_leb.
  destruct (Z.leb_spec 0 (last_file s - 1)); [| lia].
  unfold filename_row. rewrite bool_decide_true by done.
  rewrite playMp3File_same_index. simpl.
  apply to_byte_small. lia.
Qed.

Lemma playPreviousTrack_none s :
  last_file s <= 0 -> playPreviousTrack W s = s.
Proof.
  intros H. unfold playPreviousTrack. rewrite Z.geb_leb.
  destruct (Z.leb_spec 0 (last_file s - 1)); [lia | done].
Qed.

(** The row whose name [playPreviousTrack] hands to the decoder. *)

Lemma playPreviousTrack_trace s :
  2 <= last_file s <= MAX_NUM_FILES ->
  exists code,
    trace (playPreviousTrack W s)
    = trace s ++ [EvStop;
                  EvPlay (default EmptyString
                            (filename s !! Z.to_nat (last_file s - 2))) code].
Proof.
  intros H. unfold playPreviousTrack. rewrite Z.geb_leb.
  destruct (Z.leb_spec 0 (last_file s - 1)); [| lia].
  unfold filename_row. rewrite bool_decide_true by done.
  unfold playMp3File, filename_read, MP3player_playMP3. simpl.
  rewrite (to_byte_small (last_file s - 1)) by (unfold MAX_NUM_FILES in *; lia).
  replace (last_file s - 1 - 1) with (last_file s - 2) by lia.
  assert (in_bounds (last_file s - 2) = true) as ->.
  { unfold in_bounds. zcases; lia. }
  destruct (playMP3 W _ _) as [code a]. exists code.
  destruct (code =? 0); simpl; by rewrite <- app_assoc.
Qed.

(** A press of the previous-track switch after 3000 ms of the current
    track stops and replays the same index. *)

Lemma checkPreviousSwitch_restart i s :
  last_dir s > 0 -> previousTrackSwitchState i = LOW ->
  previousTrackSwitchOn s = false -> MP3player_currentPosition W s >= 3000 ->
  last_file (checkPreviousSwitch W i s) = last_file s
  /\ exists code,
       trace (checkPreviousSwitch W i s)
       = trace s ++ [EvStop;
                     EvPlay (fst (filename_read W (last_file s - 1) s)) code].
Proof.
  intros Hdir Hlow Hoff Hpos. unfold checkPreviousSwitch.
  rewrite Hlow, Hoff. unfold DEBUG. rewrite Z.gtb_ltb.
  destruct (Z.ltb_spec 0 (last_dir s)); [| lia]. simpl.
  unfold MP3player_currentPosition in *. rewrite Z.geb_leb.
  destruct (Z.leb_spec 3000 (currentPosition W (player s))); [| lia].
  unfold stopPlayback. simpl. split.
  - apply (playMp3File_same_index (MP3player_stopTrack W s)).
  - unfold playMp3File, filename_read, MP3player_playMP3. simpl.
    destruct (playMP3 W _ _) as [code a]. exists code.
    destruct (code =? 0); simpl; by rewrite <- app_assoc.
Qed.

(** Below 3000 ms the press is handed to [playPreviousTrack]. *)

Lemma checkPreviousSwitch_back i s :
  last_dir s > 0 -> previousTrackSwitchState i = LOW ->
  previousTrackSwitchOn s = false -> MP3player_currentPosition W s < 3000 ->
  checkPreviousSwitch W i s
  = set_previousTrackSwitchOn W true (playPreviousTrack W s).
Proof.
  intros Hdir Hlow Hoff Hpos. unfold checkPreviousSwitch.
  rewrite Hlow, Hoff. unfold DEBUG. rewrite Z.gtb_ltb.
  destruct (Z.ltb_spec 0 (last_dir s)); [| lia]. simpl.
  unfold MP3player_currentPosition in *. rewrite Z.geb_leb.
  destruct (Z.leb_spec 3000 (currentPosition W (player s))); [lia | done].
Qed.

End Playback.

(** C1, at an input where the code departs from it.  A directory with one
    track is loaded and its track has ended; the selector stays on the
    same position for three more readings.  The index goes from 1 to 2 on
    the first of them and stands at 4 after the third, with one populated
    row in the list: [playNextTrack] is not a no-op on the last populated
    track. *)
Theorem auto_continue_passes_last_track :
  let W := Bench.one_track in
  let s := Bench.track_ended W Bench.idle (Bench.select3 W Bench.idle) in
  let again := fun now => Bench.pass now Bench.at3 Bench.open HIGH HIGH in
  let s' := run W [again 4000; again 6000; again 8000] s in
  populated (filename s) = 1%nat
  /\ last_file s = 1
  /\ last_dir s = buttonPushed Bench.at3
  /\ MP3player_isPlaying W s = false
  /\ last_file (playNextTrack W s) = 2
  /\ last_file (loop W (again 4000) s) = 2
  /\ last_file s' = 4
  /\ populated (filename s') = 1%nat.
Proof. vm_compute. repeat split; reflexivity. Qed.

(** C7, at an input where the code departs from it.  Track 1 of a
    two-file directory plays and the decoder cannot open the second file.
    On a press of the next-track switch the decoder answers 2, nothing
    plays afterwards, and the index has moved from 1 to 2. *)
Theorem failed_next_track_moves_index :
  let W := Bench.second_unreadable in
  let s := Bench.select3 W Bench.idle in
  let s' := loop W (Bench.pass 2100 Bench.at3 Bench.open HIGH LOW) s in
  last_file s = 1
  /\ filename s !! 1%nat = Some "B.MP3"%string
  /\ trace s' = trace s ++ [EvStop; EvPlay "B.MP3" 2; EvSetVolume 50 50]
  /\ result s' = 2
  /\ MP3player_isPlaying W s' = false
  /\ last_file s' = 2
  /\ last_file (playNextTrack W s) = 2.
Proof. vm_compute. repeat split; reflexivity. Qed.

(** C8, at an input where the code departs from it.  Track 1 of a
    three-file directory has played for less than 3000 ms when the
    previous-track switch is pressed.  There is no earlier row, yet the
    track is stopped, the index becomes 0, and the decoder is handed
    whatever lies before the array (row -1). *)
Theorem previous_on_first_track :
  let W := Bench.three_tracks in
  let s := Bench.select3 W Bench.idle in
  let s' := loop W (Bench.pass 2100 Bench.at3 Bench.open LOW HIGH) s in
  last_file s = 1
  /\ MP3player_isPlaying W s = true
  /\ MP3player_currentPosition W s = 0
  /\ last_file s' = 0
  /\ MP3player_isPlaying W s' = false
  /\ trace s' = trace s ++ [EvStop; EvPlay "?" 2; EvSetVolume 50 50]
  /\ subscripts s' = subscripts s ++ [AccAddr (-1); AccRead (-1)].
Proof. vm_compute. repeat split; reflexivity. Qed.

(** ** The track switches *)

Section Switches.

Variable W : World.
Implicit Types s : State W.

(** A pass that finds the flag clear, the switch LOW and a directory
    active dispatches [playNextTrack] and sets the flag. *)

Lemma checkNextSwitch_fires i s :
  last_dir s > 0 -> nextTrackSwitchState i = LOW -> nextTrackSwitchOn s = false ->
  checkNextSwitch W i s = set_nextTrackSwitchOn W true (playNextTrack W s).
Proof.
  intros Hdir Hlow Hoff. unfold checkNextSwitch. rewrite Hlow, Hoff, Z.gtb_ltb.
  destruct (Z.ltb_spec 0 (last_dir s)); [done | lia].
Qed.

(** A pass that finds the flag set clears it, whatever the level of the
    switch: the flag is cleared while the switch is still held. *)

Lemma checkNextSwitch_rearms i s :
  nextTrackSwitchOn s = true ->
  checkNextSwitch W i s = set_nextTrackSwitchOn W false s.
Proof.
  intros Hon. unfold checkNextSwitch. rewrite Hon.
  by rewrite !andb_false_r.
Qed.

Lemma checkNextSwitch_released i s :
  nextTrackSwitchState i <> LOW ->
  checkNextSwitch W i s = set_nextTrackSwitchOn W false s.
Proof.
  intros Hhigh. unfold checkNextSwitch.
  destruct (Z.eqb_spec (nextTrackSwitchState i) LOW); [done |].
  by rewrite andb_false_r.
Qed.

(** Held LOW over two more passes after a dispatch, the switch dispatches
    again on the second of them. *)

Lemma checkNextSwitch_held i1 i2 s :
  last_dir s > 0 -> nextTrackSwitchOn s = true ->
  nextTrackSwitchState i1 = LOW -> nextTrackSwitchState i2 = LOW ->
  checkNextSwitch W i2 (checkNextSwitch W i1 s)
  = set_nextTrackSwitchOn W true
      (playNextTrack W (set_nextTrackSwitchOn W false s)).
Proof.
  intros Hdir Hon Hlow1 Hlow2. rewrite (checkNextSwitch_rearms i1 s Hon).
  by apply checkNextSwitch_fires.
Qed.

Lemma checkPreviousSwitch_rearms i s :
  previousTrackSwitchOn s = true ->
  checkPreviousSwitch W i s = set_previousTrackSwitchOn W false s.
Proof.
  intros Hon. unfold checkPreviousSwitch. rewrite Hon.
  by rewrite !andb_false_r.
Qed.

(** Without an active directory the switches dispatch nothing. *)


Lemma checkSwitches_flag i d s :
  fst (checkSwitches W i d s)
  = if nextTrackSwitchState i =? LOW then true else d.
Proof. reflexivity. Qed.

End Switches.

(** C2, at an input where the code departs from it.  Track 1 of three
    plays; the next-track switch is pressed once and held LOW over three
    consecutive passes, with no selector reading in between.  Two track
    changes are dispatched for the one press, on the first and on the
    third pass, and the index stands at 3. *)
Theorem held_switch_fires_twice :
  let W := Bench.three_tracks in
  let s := Bench.select3 W Bench.idle in
  let held := fun now => Bench.pass now Bench.at3 Bench.open HIGH LOW in
  let s' := run W [held 2100; held 2101; held 2102] s in
  last_file s = 1
  /\ selectors_due (held 2100) s = false
  /\ selectors_due (held 2102) s = false
  /\ last_file (loop W (held 2100) s) = 2
  /\ last_file (run W [held 2100; held 2101] s) = 2
  /\ last_file s' = 3
  /\ play_calls (trace s') = (play_calls (trace s) + 2)%nat
  /\ trace s' = trace s ++ [EvStop; EvPlay "B.MP3" 0; EvSetVolume 50 50;
                            EvSetVolume 50 50;
                            EvStop; EvPlay "C.MP3" 0; EvSetVolume 50 50].
Proof. vm_compute. repeat split; reflexivity. Qed.

(** ** Subscripts of the [filename] array *)

(** C4, at inputs where the code departs from it.  A directory of 21
    files is selected: [readFilenames] writes row 20 of the 20-row array.
    And on the first track, [playPreviousTrack] takes the address of row
    -1 and then reads it. *)
Theorem filename_subscripts_leave_array :
  let W := Bench.many_tracks 21 in
  let s := Bench.select3 W Bench.idle in
  let V := Bench.three_tracks in
  let t := Bench.select3 V Bench.idle in
  subscripts s !! 20%nat = Some (AccWrite 20)
  /\ access_ok (AccWrite 20) = false
  /\ forallb access_ok (subscripts s) = false
  /\ last_file t = 1
  /\ forallb access_ok (subscripts t) = true
  /\ subscripts (playPreviousTrack V t)
     = subscripts t ++ [AccAddr (-1); AccRead (-1)]
  /\ forallb access_ok (subscripts (playPreviousTrack V t)) = false.
Proof. vm_compute. repeat split; reflexivity. Qed.

(** ** The directory selector *)

Section Directory.

Variable W : World.
Implicit Types s : State W.

Lemma keep_filename_trace entries index s :
  trace (snd (foldl (keep_filename W) (index, s) entries)) = trace s
  /\ player (snd (foldl (keep_filename W) (index, s) entries)) = player s.
Proof.
  revert index s. induction entries as [| e entries IH]; intros index s; [done |].
  simpl. destruct (negb _); [| apply IH].
  destruct (IH (to_byte (index + 1)) (filename_strcpy W index e s)) as [-> ->].
  unfold filename_strcpy. by destruct (in_bounds index).
Qed.

Lemma playMp3File_trace fileNum s :
  exists name code,
    trace (playMp3File W fileNum s) = trace s ++ [EvPlay name code]
    /\ result (playMp3File W fileNum s) = code
    /\ last_file (playMp3File W fileNum s)
       = (if code =? 0 then fileNum else last_file s).
Proof.
  unfold playMp3File, filename_read, MP3player_playMP3. simpl.
  destruct (playMP3 W _ _) as [code a]. eexists _, code.
  by destruct (code =? 0).
Qed.

(** [readFilenames] stops the decoder, then asks for row 0; the index is
    1 when the decoder starts it and 0 otherwise. *)

Lemma readFilenames_trace dirNum s :
  exists name code,
    trace (readFilenames W dirNum s) = trace s ++ [EvStop; EvPlay name code]
    /\ result (readFilenames W dirNum s) = code
    /\ last_file (readFilenames W dirNum s) = (if code =? 0 then 1 else 0).
Proof.
  unfold readFilenames, stopPlayback. cbv zeta.
  match goal with |- context [playMp3File W 1 ?t] =>
    destruct (playMp3File_trace 1 t) as (name & code & Ht & Hr & Hl);
    assert (trace t = trace s ++ [EvStop]) as Hpre end.
  { match goal with |- context [sd_list W ?d] =>
      destruct (sd_list W d) as [entries|] end; [| done].
    cbn [trace set_last_file].
    by destruct (keep_filename_trace entries 0
      (set_filename W (replicate (Z.to_nat MAX_NUM_FILES) EmptyString)
         (MP3player_stopTrack W s))) as [-> _]. }
  exists name, code. rewrite Ht, Hpre, Hr, Hl, <- app_assoc.
  repeat split; try done.
Qed.

(** A new nonzero position always reaches [readFilenames]: the test of
    line 263 compares the address of a row of [dirname] with the null
    pointer, so the branch for a missing directory is never taken,
    whatever the row holds. *)

Lemma checkDirectory_new_trigger i d s :
  directory_trigger i s = true ->
  checkDirectory W i d s
  = (true,
     readFilenames W (buttonPushed (analog_directory i))
       (let s := set_last_dir W (buttonPushed (analog_directory i)) s in
        if MP3player_isPlaying W s then stopPlayback W s else s)).
Proof.
  unfold directory_trigger, checkDirectory. intros [-> ->]%andb_true_iff.
  rewrite to_byte_buttonPushed. by rewrite bool_decide_false.
Qed.

Lemma checkDirectory_new_trigger_reloads i d s :
  directory_trigger i s = true ->
  exists name code,
    trace (snd (checkDirectory W i d s))
    = trace s ++ (if MP3player_isPlaying W s then [EvStop] else [])
        ++ [EvStop; EvPlay name code]
    /\ last_file (snd (checkDirectory W i d s)) = (if code =? 0 then 1 else 0).
Proof.
  intros H. rewrite (checkDirectory_new_trigger i d s H). cbn [snd].
  match goal with |- context [readFilenames W ?n ?t] =>
    destruct (readFilenames_trace n t) as (name & code & Ht & _ & Hl) end.
  exists name, code. rewrite Ht, Hl. split; [| done]. cbv zeta.
  change (MP3player_isPlaying W (set_last_dir W _ s)) with (MP3player_isPlaying W s).
  destruct (MP3player_isPlaying W s); simpl; by rewrite <- ?app_assoc.
Qed.

(** The selector on the same position repeats [playNextTrack] while
    nothing plays. *)

Lemma checkDirectory_same i d s :
  buttonPushed (analog_directory i) <> 0 ->
  buttonPushed (analog_directory i) = last_dir s ->
  checkDirectory W i d s
  = (d, if MP3player_isPlaying W s then s else playNextTrack W s).
Proof.
  intros Hnz Heq. unfold checkDirectory.
  destruct (Z.eqb_spec (buttonPushed (analog_directory i)) 0); [done |].
  destruct (Z.eqb_spec (buttonPushed (analog_directory i)) (last_dir s)); [| done].
  simpl. by destruct (MP3player_isPlaying W s).
Qed.

(** The selector on no position. *)


Lemma checkVolume_flag i d s :
  fst (checkVolume W i d s) = volume_trigger i s || d.
Proof.
  unfold checkVolume, volume_trigger.
  destruct (negb (_ =? 0)); [| done]. by destruct (negb _).
Qed.

Lemma checkVolume_frame i d s :
  let s' := snd (checkVolume W i d s) in
  last_dir s' = last_dir s /\ last_file s' = last_file s
  /\ player s' = player s /\ trace s' = trace s
  /\ sleepCounter s' = sleepCounter s /\ filename s' = filename s.
Proof.
  unfold checkVolume.
  destruct (negb (_ =? 0)); [| done]. by destruct (negb _).
Qed.


Lemma adjustVolume_frame s :
  let s' := adjustVolume W s in
  last_dir s' = last_dir s /\ last_file s' = last_file s
  /\ sleepCounter s' = sleepCounter s /\ filename s' = filename s.
Proof. unfold adjustVolume. zcases; done. Qed.

(** The rate-limited part of a pass when the selectors are due. *)

Lemma checkVoltageDividers_due i d s :
  selectors_due i s = true ->
  checkVoltageDividers W i d s
  = let s0 := if buttonLastChecked s =? 0
              then set_buttonLastChecked W (to_long (millis_first i + BUTTONDELAY)) s
              else s in
    let r1 := checkDirectory W i d s0 in
    let r2 := checkVolume W i (fst r1) (snd r1) in
    (fst r2, set_buttonLastChecked W (to_long (millis_checked i)) (snd r2)).
Proof.
  unfold selectors_due, checkVoltageDividers. intros Hdue.
  destruct (buttonLastChecked s =? 0); cbv zeta;
    cbn [buttonLastChecked set_buttonLastChecked]; rewrite Hdue;
    destruct (checkDirectory W i d _) as [d1 s1]; cbn [fst snd];
    by destruct (checkVolume W i d1 s1) as [d2 s2].
Qed.

Lemma checkVoltageDividers_not_due i d s :
  selectors_due i s = false ->
  checkVoltageDividers W i d s
  = (d, if buttonLastChecked s =? 0
        then set_buttonLastChecked W (to_long (millis_first i + BUTTONDELAY)) s
        else s).
Proof.
  unfold selectors_due, checkVoltageDividers. intros Hdue.
  destruct (buttonLastChecked s =? 0); simpl; by rewrite Hdue.
Qed.

(** What a pass leaves before the sleep decision when the selector is on
    no position. *)


End Directory.

(** C6, at an input where the code departs from it.  The card has a
    directory for position 3 only; its track 1 plays when the selector
    moves to position 1, for which no directory was found.  The pass stops
    the playback, empties the stored file list and puts the index back to
    0 (the attempt to start row 0 fails on the empty name). *)
Theorem unregistered_position_reloads :
  let W := Bench.three_tracks in
  let s := Bench.select3 W Bench.idle in
  let s' := loop W (Bench.pass 4000 Bench.at1 Bench.open HIGH HIGH) s in
  buttonPushed Bench.at1 = 1
  /\ sd_root W = [("3SONGS"%string, true)]
  /\ dirname s = [""; ""; "3SONGS"; ""; ""]%string
  /\ MP3player_isPlaying W s = true
  /\ last_file s = 1
  /\ populated (filename s) = 3%nat
  /\ MP3player_isPlaying W s' = false
  /\ populated (filename s') = 0%nat
  /\ last_file s' = 0
  /\ trace s' = trace s ++ [EvStop; EvStop; EvPlay "" 2; EvSetVolume 50 50].
Proof. vm_compute. repeat split; reflexivity. Qed.




(** ** Sleep mode and the idle timer *)

Section Power.

Variable W : World.
Implicit Types s : State W.

(** The three outcomes of the sleep decision of lines 377-390. *)

Lemma handleSleep_active i d s :
  d || MP3player_isPlaying W s = true ->
  handleSleep W i d s = set_sleepCounter W (to_long (millis_active i)) s.
Proof.
  intros H. unfold handleSleep.
  destruct d, (MP3player_isPlaying W s); done.
Qed.

Lemma handleSleep_waiting i d s :
  d || MP3player_isPlaying W s = false -> idle_time i s < SLEEP_DELAY ->
  handleSleep W i d s = s.
Proof.
  intros H Hidle. unfold handleSleep, idle_time in *.
  destruct d, (MP3player_isPlaying W s); try done. simpl.
  rewrite Z.geb_leb. destruct (Z.leb_spec SLEEP_DELAY
    (to_ulong (millis_idle i - sleepCounter s))); [lia | done].
Qed.

Lemma handleSleep_sleeping i d s :
  d || MP3player_isPlaying W s = false -> SLEEP_DELAY <= idle_time i s ->
  handleSleep W i d s
  = sleepNow W (set_sleepCounter W (to_long (millis_sleep i)) s).
Proof.
  intros H Hidle. unfold handleSleep, idle_time in *.
  destruct d, (MP3player_isPlaying W s); try done. simpl.
  rewrite Z.geb_leb. destruct (Z.leb_spec SLEEP_DELAY
    (to_ulong (millis_idle i - sleepCounter s))); [done | lia].
Qed.

Lemma sleepNow_effect s :
  trace (sleepNow W s) = trace s ++ sleep_calls
  /\ sleepCounter (sleepNow W s) = sleepCounter s.
Proof.
  unfold sleepNow, myAttachInterrupt, myDetachInterrupt, sleep_calls. simpl.
  by rewrite <- !app_assoc.
Qed.

(** Nothing before the sleep decision writes the idle timer or the volume
    settings, the volume selector aside. *)

Lemma checkVoltageDividers_frame i d s :
  let s0 := if buttonLastChecked s =? 0
            then set_buttonLastChecked W (to_long (millis_first i + BUTTONDELAY)) s
            else s in
  let s1 := snd (checkVoltageDividers W i d s) in
  sleepCounter s1 = sleepCounter s
  /\ target_vol_range (snd (checkDirectory W i d s0)) = target_vol_range s
  /\ last_dir s0 = last_dir s /\ player s0 = player s.
Proof.
  cbv zeta.
  set (s0 := if buttonLastChecked s =? 0 then _ else s).
  assert (sleepCounter s0 = sleepCounter s /\ target_vol_range s0 = target_vol_range s
          /\ last_dir s0 = last_dir s /\ player s0 = player s)
    as (Hs0 & Hr0 & Hd0 & Ha0).
  { subst s0. by destruct (buttonLastChecked s =? 0). }
  pose proof (checkDirectory_controls_kept W i d s0) as (_ & _ & Hr1 & Hs1 & _).
  split; [| by rewrite Hr1].
  destruct (selectors_due i s) eqn:Hdue.
  - rewrite (checkVoltageDividers_due W i d s Hdue). cbv zeta. fold s0.
    cbn [snd sleepCounter set_buttonLastChecked].
    pose proof (checkVolume_frame W i (fst (checkDirectory W i d s0))
                  (snd (checkDirectory W i d s0))) as (_ & _ & _ & _ & Hs2 & _).
    cbv zeta in Hs2. by rewrite Hs2, Hs1.
  - rewrite (checkVoltageDividers_not_due W i d s Hdue). cbn [snd]. by fold s0.
Qed.

Lemma checkInputs_sleepCounter i s :
  sleepCounter (snd (checkInputs W i s)) = sleepCounter s.
Proof.
  unfold checkInputs.
  pose proof (checkVoltageDividers_frame i false s) as (Hs1 & _).
  destruct (checkVoltageDividers W i false s) as [d1 s1]. cbn [snd] in *.
  pose proof (checkSwitches_controls_kept W i d1 s1) as (_ & _ & _ & Hs2 & _).
  by rewrite Hs2.
Qed.

(** What raises the interaction flag of a pass. *)

Lemma checkInputs_flag_next_switch i s :
  nextTrackSwitchState i = LOW -> fst (checkInputs W i s) = true.
Proof.
  intros Hlow. unfold checkInputs.
  destruct (checkVoltageDividers W i false s) as [d1 s1].
  rewrite checkSwitches_flag. by rewrite Hlow.
Qed.

Lemma checkInputs_flag_selectors i s :
  selectors_due i s = true ->
  fst (checkInputs W i s) = true
  <-> nextTrackSwitchState i = LOW
      \/ volume_trigger i s = true
      \/ directory_trigger i s = true
      \/ (buttonPushed (analog_directory i) = 0
          /\ MP3player_isPlaying W s = true).
Proof.
  intros Hdue. unfold checkInputs.
  pose proof (checkVoltageDividers_frame i false s) as (_ & Hr & Hd0 & Ha0).
  rewrite (checkVoltageDividers_due W i false s Hdue). cbv beta iota zeta in *.
  set (s0 := if buttonLastChecked s =? 0 then _ else s) in *.
  rewrite checkSwitches_flag. cbn [fst]. rewrite checkVolume_flag.
  assert (volume_trigger i (snd (checkDirectory W i false s0)) = volume_trigger i s)
    as -> by (unfold volume_trigger; by rewrite Hr).
  assert (fst (checkDirectory W i false s0) = true
          <-> directory_trigger i s = true
              \/ (buttonPushed (analog_directory i) = 0
                  /\ MP3player_isPlaying W s = true)) as Hdir.
  { unfold directory_trigger, checkDirectory, MP3player_isPlaying.
    rewrite Hd0, Ha0.
    destruct (Z.eqb_spec (buttonPushed (analog_directory i)) 0) as [E | E]; simpl.
    - destruct (isPlaying W (player s)); simpl; intuition congruence.
    - destruct (Z.eqb_spec (buttonPushed (analog_directory i)) (last_dir s)); simpl.
      + destruct (negb (isPlaying W (player s))); simpl; intuition congruence.
      + intuition congruence. }
  destruct (Z.eqb_spec (nextTrackSwitchState i) LOW) as [Hl | Hl].
  - intuition.
  - rewrite orb_true_iff, Hdir. intuition.
Qed.

Lemma checkInputs_flag_not_due i s :
  selectors_due i s = false ->
  fst (checkInputs W i s) = true <-> nextTrackSwitchState i = LOW.
Proof.
  intros Hdue. unfold checkInputs.
  rewrite (checkVoltageDividers_not_due W i false s Hdue).
  rewrite checkSwitches_flag.
  destruct (Z.eqb_spec (nextTrackSwitchState i) LOW); intuition congruence.
Qed.

End Power.

(** C5 as stated fails when sleep is entered: after power-up on a card
    without directories, a pass at 30000 ms finds no interaction and no
    playback; it sets the idle timer, which stood at 0, to 30000 and goes
    to sleep. *)
Lemma sleep_entry_resets_timer :
  fst (checkInputs Bench.blank Bench.late Bench.powered_up) = false
  /\ MP3player_isPlaying Bench.blank
       (snd (checkInputs Bench.blank Bench.late Bench.powered_up)) = false
  /\ sleepCounter Bench.powered_up = 0
  /\ sleepCounter (loop Bench.blank Bench.late Bench.powered_up) = 30000
  /\ trace (loop Bench.blank Bench.late Bench.powered_up)
     = sleep_calls ++ [EvSetVolume 50 50].
Proof. vm_compute. repeat split; reflexivity. Qed.

(** C5, amended: nothing before the sleep decision of a pass writes the
    idle timer.  If the interaction flag was raised in the pass or a track
    plays at the decision, the timer is set to the current time and the
    pass does not sleep.  Otherwise, while the idle time is below
    SLEEP_DELAY the timer is left as it was and the pass does not sleep;
    once the idle time has reached SLEEP_DELAY sleep mode is entered, and
    the timer is set to the current time on that pass too.  The flag is
    raised by the next-track switch reading LOW and, in a pass that reads
    the selectors, by a new directory position, by a new volume position,
    and by the directory selector on no position while a track plays; on
    a pass that finds the previous-track switch released nothing else
    raises it. *)
Theorem idle_timer_rule (W : World) (i : Inputs) (s : State W) :
  let flag := fst (checkInputs W i s) in
  let s1 := snd (checkInputs W i s) in
  let active := MP3player_isPlaying W s1 in
  let s' := loop W i s in
  sleepCounter s1 = sleepCounter s
  /\ (flag || active = true ->
        sleepCounter s' = to_long (millis_active i)
        /\ trace s' = trace s1 ++ [EvSetVolume (volume s') (volume s')])
  /\ (flag || active = false -> idle_time i s < SLEEP_DELAY ->
        sleepCounter s' = sleepCounter s
        /\ trace s' = trace s1 ++ [EvSetVolume (volume s') (volume s')])
  /\ (flag || active = false -> SLEEP_DELAY <= idle_time i s ->
        sleepCounter s' = to_long (millis_sleep i)
        /\ trace s' = trace s1 ++ sleep_calls
                        ++ [EvSetVolume (volume s') (volume s')])
  /\ (nextTrackSwitchState i = LOW -> flag = true)
  /\ (selectors_due i s = true -> directory_trigger i s = true -> flag = true)
  /\ (selectors_due i s = true -> volume_trigger i s = true -> flag = true)
  /\ (selectors_due i s = true -> buttonPushed (analog_directory i) = 0 ->
        MP3player_isPlaying W s = true -> flag = true)
  /\ (previousTrackSwitchState i <> LOW ->
        flag = true
        <-> nextTrackSwitchState i = LOW
            \/ (selectors_due i s = true
                /\ (volume_trigger i s = true
                    \/ directory_trigger i s = true
                    \/ (buttonPushed (analog_directory i) = 0
                        /\ MP3player_isPlaying W s = true)))).
Proof.
  intros flag s1 active s'. subst flag s1 active s'. unfold loop.
  pose proof (checkInputs_sleepCounter W i s) as Hs1.
  pose proof (checkInputs_flag_next_switch W i s) as Hnext.
  pose proof (checkInputs_flag_selectors W i s) as Hsel.
  pose proof (checkInputs_flag_not_due W i s) as Hnot.
  destruct (checkInputs W i s) as [d s1]. cbn [fst snd] in *.
  assert (idle_time i s1 = idle_time i s) as Hidle
    by (unfold idle_time; by rewrite Hs1).
  pose proof (adjustVolume_frame W (handleSleep W i d s1)) as (_ & _ & Hs3 & _).
  cbv zeta in Hs3. rewrite Hs3, adjustVolume_trace.
  split; [done |].
  split.
  { intros Hact. by rewrite (handleSleep_active W i d s1 Hact). }
  split.
  { intros Hact Hlt. rewrite <- Hidle in Hlt.
    by rewrite (handleSleep_waiting W i d s1 Hact Hlt). }
  split.
  { intros Hact Hge. rewrite <- Hidle in Hge.
    rewrite (handleSleep_sleeping W i d s1 Hact Hge).
    destruct (sleepNow_effect W (set_sleepCounter W (to_long (millis_sleep i)) s1))
      as [-> ->].
    by rewrite <- app_assoc. }
  split; [done |].
  split; [intros Hdue Htrig; apply (Hsel Hdue); tauto |].
  split; [intros Hdue Htrig; apply (Hsel Hdue); tauto |].
  split; [intros Hdue Hzero Hplay; apply (Hsel Hdue); tauto |].
  intros _. destruct (selectors_due i s) eqn:Hdue.
  - rewrite (Hsel eq_refl). tauto.
  - rewrite (Hnot eq_refl). intuition congruence.
Qed.

(** Lines 370-372 raise the interaction flag for the next-track switch
    only, although the header of the sketch (lines 21-22) has the device
    sleep only after a period without input.  After power-up, a pass at
    30000 ms that finds the previous-track switch pressed and nothing else
    goes to sleep, where the same pass with the next-track switch pressed
    sets the idle timer and stays awake. *)
Lemma previous_switch_raises_no_flag :
  fst (checkInputs Bench.blank
         (Bench.pass 30000 Bench.open Bench.open LOW HIGH) Bench.powered_up)
  = false
  /\ power_events (trace (loop Bench.blank
         (Bench.pass 30000 Bench.open Bench.open LOW HIGH) Bench.powered_up))
     = sleep_calls
  /\ fst (checkInputs Bench.blank
            (Bench.pass 30000 Bench.open Bench.open HIGH LOW) Bench.powered_up)
     = true
  /\ power_events (trace (loop Bench.blank
         (Bench.pass 30000 Bench.open Bench.open HIGH LOW) Bench.powered_up))
     = [].
Proof. vm_compute. repeat split; reflexivity. Qed.

(** * Further properties of the sketch *)

(** ** Decoder, interrupt registers, volume *)

(** X1: among the samples that are decoded to a position, a higher sample
    never gives a higher position: the positions run against the raw
    magnitude. *)
Theorem buttonPushed_antitone (v1 v2 : Z) (Hle : v1 <= v2)
  (H1 : buttonPushed v1 <> 0) (H2 : buttonPushed v2 <> 0) :
  buttonPushed v2 <= buttonPushed v1.
Proof.
  destruct (buttonPushed_cases v1) as [[E1 B1] | [[E1 B1] | [[E1 B1] | [[E1 B1] | [[E1 B1] | E1]]]]];
    destruct (buttonPushed_cases v2) as [[E2 B2] | [[E2 B2] | [[E2 B2] | [[E2 B2] | [[E2 B2] | E2]]]]];
    lia.
Qed.

Lemma buttonPushed_antitone_witness : buttonPushed 800 <= buttonPushed 100.
Proof.
  apply (buttonPushed_antitone 100 800); [lia | |]; vm_compute; discriminate.
Defined.

Lemma testbit_small_mask (m n width : Z) :
  0 <= m -> Z.log2 m < width -> width <= n -> Z.testbit m n = false.
Proof. intros Hm Hlog Hn. apply Z.bits_above_log2; lia. Qed.

(** X2: [myAttachInterrupt] switches on the pin-change interrupts of ports
    C and D (bits 1 and 2 of PCICR) for pins A0, A4, A5 (bits 0, 4, 5 of
    PCMSK1) and D0, D1 (bits 0, 1 of PCMSK2) and leaves every other bit as
    it was; doing it twice changes nothing more; [myDetachInterrupt]
    clears the three registers whatever they held, so after the
    attach-sleep-detach of [sleepNow] no pin-change interrupt is left
    enabled. *)
Theorem attach_detach_registers (r : Pcint.Registers) (n : Z) :
  Z.testbit (Pcint.PCICR (Pcint.myAttachInterrupt r)) n
    = Z.testbit (Pcint.PCICR r) n || (n =? 1) || (n =? 2)
  /\ Z.testbit (Pcint.PCMSK1 (Pcint.myAttachInterrupt r)) n
     = Z.testbit (Pcint.PCMSK1 r) n || (n =? 0) || (n =? 4) || (n =? 5)
  /\ Z.testbit (Pcint.PCMSK2 (Pcint.myAttachInterrupt r)) n
     = Z.testbit (Pcint.PCMSK2 r) n || (n =? 0) || (n =? 1)
  /\ Pcint.myAttachInterrupt (Pcint.myAttachInterrupt r)
     = Pcint.myAttachInterrupt r
  /\ Pcint.awake r = Pcint.mkRegisters 0 0 0
  /\ Pcint.myDetachInterrupt r = Pcint.mkRegisters 0 0 0.
Proof.
  assert (Hbits : forall m, (m = 6 \/ m = 49 \/ m = 3) ->
            Z.testbit m n
            = if m =? 6 then (n =? 1) || (n =? 2)
              else if m =? 49 then (n =? 0) || (n =? 4) || (n =? 5)
              else (n =? 0) || (n =? 1)).
  { intros m Hm. destruct (Z_lt_le_dec n 0) as [Hneg | Hpos].
    - rewrite Z.testbit_neg_r by lia. destruct Hm as [-> | [-> | ->]];
        simpl; zcases; lia.
    - destruct (Z_lt_le_dec n 6) as [Hlow | Hhigh].
      + assert (n = 0 \/ n = 1 \/ n = 2 \/ n = 3 \/ n = 4 \/ n = 5) as Hn by lia.
        destruct Hm as [-> | [-> | ->]];
          destruct Hn as [-> | [-> | [-> | [-> | [-> | ->]]]]]; reflexivity.
      + rewrite (testbit_small_mask m n 6);
          [| destruct Hm as [-> | [-> | ->]]; lia
           | destruct Hm as [-> | [-> | ->]]; vm_compute; reflexivity
           | lia].
        destruct Hm as [-> | [-> | ->]]; simpl; zcases; lia. }
  unfold Pcint.awake, Pcint.myAttachInterrupt, Pcint.myDetachInterrupt. simpl.
  rewrite !Z.lor_spec.
  rewrite (Hbits 6), (Hbits 49), (Hbits 3) by auto. simpl.
  rewrite <- !Z.lor_assoc. simpl.
  repeat split; try reflexivity; by rewrite ?orb_assoc.
Qed.

Section MoreVolume.

Variable W : World.
Implicit Types s : State W.

Lemma fade_step n s :
  fade (S n) s = adjustVolume W (fade n s).
Proof. reflexivity. Qed.

Lemma fade_spec n s :
  0 <= volume s <= 60 -> 0 <= target_vol s <= 60 ->
  target_vol (fade n s) = target_vol s
  /\ volume (fade n s)
     = (if volume s <=? target_vol s
        then Z.min (target_vol s) (volume s + Z.of_nat n)
        else Z.max (target_vol s) (volume s - Z.of_nat n))
  /\ setVolume_calls (trace (fade n s)) = (setVolume_calls (trace s) + n)%nat.
Proof.
  intros Hv Ht. induction n as [| n (IHt & IHv & IHc)].
  - simpl. repeat split; [zcases; lia | lia].
  - rewrite fade_step, adjustVolume_target, adjustVolume_trace.
    rewrite setVolume_calls_app, IHc.
    assert (0 <= volume (fade n s) <= 60) as Hr by (rewrite IHv; zcases; lia).
    assert (0 <= target_vol (fade n s) <= 60) as Hr' by (by rewrite IHt).
    rewrite (adjustVolume_volume W _ Hr Hr'), IHt, IHv.
    split; [done |]. split.
    + zcases; lia.
    + unfold setVolume_calls at 2. rewrite filter_cons_True by done. simpl. lia.
Qed.

End MoreVolume.

(** X3: with the target left alone, [n] volume ticks from a pair inside
    0..60 move the volume [n] steps toward the target and stop there: the
    volume is the target as soon as [n] reaches their distance, and stays
    the target for every larger [n]; each tick issues one [setVolume]. *)
Theorem fade_reaches_target (W : World) (n : nat) (s : State W)
  (Hvol : 0 <= volume s <= 60) (Htarget : 0 <= target_vol s <= 60) :
  target_vol (fade n s) = target_vol s
  /\ Z.abs (target_vol s - volume (fade n s))
     = Z.max 0 (Z.abs (target_vol s - volume s) - Z.of_nat n)
  /\ (Z.abs (target_vol s - volume s) <= Z.of_nat n ->
        volume (fade n s) = target_vol s)
  /\ (volume s <= target_vol s -> volume s <= volume (fade n s) <= target_vol s)
  /\ (target_vol s <= volume s -> target_vol s <= volume (fade n s) <= volume s)
  /\ setVolume_calls (trace (fade n s)) = (setVolume_calls (trace s) + n)%nat.
Proof.
  destruct (fade_spec W n s Hvol Htarget) as (Ht & Hv & Hc).
  rewrite Ht, Hv, Hc. repeat split; try (zcases; lia).
Qed.

Lemma fade_reaches_target_witness :
  volume (fade 10 Bench.fading) = 60 /\ volume (fade 25 Bench.fading) = 60.
Proof.
  assert (Hvol : 0 <= volume Bench.fading <= 60) by (simpl; lia).
  assert (Htarget : 0 <= target_vol Bench.fading <= 60) by (simpl; lia).
  split.
  - apply (fade_reaches_target Bench.blank 10 Bench.fading Hvol Htarget).
    simpl. lia.
  - apply (fade_reaches_target Bench.blank 25 Bench.fading Hvol Htarget).
    simpl. lia.
Defined.

(** X4: a volume selector reading on a new position p (1..5) records p,
    sets the target volume to 12 * p, that is 12, 24, 36, 48 or 60, and
    raises the interaction flag, without touching the current volume or
    calling the decoder; a reading on no position or on the recorded
    position changes nothing.  After power-up the recorded position is
    255, so the first reading on any position is new. *)
Theorem checkVolume_sets_target (W : World) (a : Audio W) (i : Inputs)
  (d : bool) (s : State W) :
  let p := buttonPushed (analog_volume i) in
  let r := checkVolume W i d s in
  (volume_trigger i s = true ->
     1 <= p <= 5 /\ fst r = true
     /\ target_vol_range (snd r) = p /\ target_vol (snd r) = 12 * p
     /\ volume (snd r) = volume s /\ trace (snd r) = trace s)
  /\ (volume_trigger i s = false -> r = (d, s))
  /\ volume_trigger i (boot W a) = negb (p =? 0).
Proof.
  intros p r. subst p r.
  pose proof (buttonPushed_range (analog_volume i)) as Hr.
  unfold volume_trigger, checkVolume.
  split; [| split].
  - intros [Hnz Hnew]%andb_true_iff. rewrite Hnz, Hnew.
    assert (1 <= buttonPushed (analog_volume i) <= 5) as Hp
      by (revert Hnz; zcases; lia).
    rewrite to_byte_buttonPushed. cbn [fst snd].
    rewrite setTargetVolumeByRange_linear by lia.
    destruct (setTargetVolumeByRange_spec W (buttonPushed (analog_volume i))
                (set_target_vol_range W (buttonPushed (analog_volume i)) s))
      as (_ & -> & ->).
    done.
  - intros Hno. destruct (negb (_ =? 0)); [| done].
    simpl in Hno. by rewrite Hno.
  - simpl. zcases; try lia; reflexivity.
Qed.

(** ** The calls of a pass, in order *)

Section Calls.

Variable W : World.
Implicit Types s : State W.

Lemma playback_only_refl s : playback_only s s.
Proof. exists []. by rewrite app_nil_r. Qed.

Lemma playback_only_trans s1 s2 s3 :
  playback_only s1 s2 -> playback_only s2 s3 -> playback_only s1 s3.
Proof.
  intros (c1 & E1 & F1) (c2 & E2 & F2). exists (c1 ++ c2).
  rewrite E2, E1, <- app_assoc, forallb_app, F1, F2. done.
Qed.

Lemma playback_only_same s s' : trace s' = trace s -> playback_only s s'.
Proof. intros E. exists []. by rewrite app_nil_r. Qed.

Lemma stopTrack_playback_only s : playback_only s (MP3player_stopTrack W s).
Proof. by exists [EvStop]. Qed.

Lemma playMp3File_playback_only fileNum s :
  playback_only s (playMp3File W fileNum s).
Proof.
  destruct (playMp3File_trace W fileNum s) as (name & code & E & _).
  by exists [EvPlay name code].
Qed.

Lemma playNextTrack_playback_only s : playback_only s (playNextTrack W s).
Proof.
  unfold playNextTrack. destruct (_ <=? _); [| apply playback_only_refl].
  unfold filename_row. rewrite bool_decide_true by done.
  eapply playback_only_trans; [| apply playMp3File_playback_only].
  eapply playback_only_trans; [| by apply playback_only_same].
  eapply playback_only_trans; [| apply stopTrack_playback_only].
  by apply playback_only_same.
Qed.

Lemma playPreviousTrack_playback_only s :
  playback_only s (playPreviousTrack W s).
Proof.
  unfold playPreviousTrack. destruct (_ >=? _); [| apply playback_only_refl].
  unfold filename_row. rewrite bool_decide_true by done.
  eapply playback_only_trans; [| apply playMp3File_playback_only].
  eapply playback_only_trans; [| by apply playback_only_same].
  eapply playback_only_trans; [| apply stopTrack_playback_only].
  by apply playback_only_same.
Qed.

Lemma readFilenames_playback_only dirNum s :
  playback_only s (readFilenames W dirNum s).
Proof.
  destruct (readFilenames_trace W dirNum s) as (name & code & E & _).
  by exists [EvStop; EvPlay name code].
Qed.

Lemma checkDirectory_playback_only i d s :
  playback_only s (snd (checkDirectory W i d s)).
Proof.
  unfold checkDirectory, stopPlayback.
  destruct (negb (_ =? 0)); [destruct (negb (_ =? last_dir s)) |].
  - rewrite bool_decide_false by done. cbn [snd].
    eapply playback_only_trans; [| apply readFilenames_playback_only].
    destruct (MP3player_isPlaying _ _).
    + eapply playback_only_trans; [| apply stopTrack_playback_only].
      by apply playback_only_same.
    + by apply playback_only_same.
  - cbn [snd]. destruct (negb _);
      [apply playNextTrack_playback_only | apply playback_only_refl].
  - destruct (MP3player_isPlaying W s); cbn [snd].
    + eapply playback_only_trans; [apply stopTrack_playback_only |].
      by apply playback_only_same.
    + by apply playback_only_same.
Qed.

Lemma checkSwitches_playback_only i d s :
  playback_only s (snd (checkSwitches W i d s)).
Proof.
  unfold checkSwitches. cbn [snd].
  eapply playback_only_trans with (s2 := checkPreviousSwitch W i s).
  - unfold checkPreviousSwitch.
    destruct (_ && _); [| by apply playback_only_same].
    eapply playback_only_trans; [| by apply playback_only_same].
    destruct (_ >=? _); [| apply playPreviousTrack_playback_only].
    eapply playback_only_trans; [apply stopTrack_playback_only |].
    apply playMp3File_playback_only.
  - unfold checkNextSwitch.
    destruct (_ && _); [| by apply playback_only_same].
    eapply playback_only_trans; [apply playNextTrack_playback_only |].
    by apply playback_only_same.
Qed.

Lemma checkInputs_playback_only i s :
  playback_only s (snd (checkInputs W i s)).
Proof.
  unfold checkInputs.
  destruct (checkVoltageDividers W i false s) as [d1 s1] eqn:E1.
  eapply playback_only_trans; [| apply checkSwitches_playback_only].
  unfold checkVoltageDividers in E1.
  set (s0 := if buttonLastChecked s =? 0 then _ else s) in E1.
  assert (trace s0 = trace s) as H0
    by (subst s0; by destruct (buttonLastChecked s =? 0)).
  destruct (_ >? _).
  - pose proof (checkDirectory_playback_only i false s0) as Hd.
    destruct (checkDirectory W i false s0) as [d2 s2]. cbn [snd] in Hd.
    pose proof (checkVolume_frame W i d2 s2) as (_ & _ & _ & Ht & _).
    destruct (checkVolume W i d2 s2) as [d3 s3]. cbn [snd] in Ht.
    injection E1 as _ <-.
    eapply playback_only_trans; [by apply (playback_only_same s s0) |].
    eapply playback_only_trans; [exact Hd |]. by apply playback_only_same.
  - injection E1 as _ <-. by apply playback_only_same.
Qed.

(** The whole log of a pass. *)

Lemma loop_trace i s :
  exists calls,
    forallb is_playback calls = true
    /\ trace (snd (checkInputs W i s)) = trace s ++ calls
    /\ trace (loop W i s)
       = trace s ++ calls
         ++ (if negb (fst (checkInputs W i s)
                      || MP3player_isPlaying W (snd (checkInputs W i s)))
                && (SLEEP_DELAY <=? idle_time i s)
             then sleep_calls else [])
         ++ [EvSetVolume (volume (loop W i s)) (volume (loop W i s))].
Proof.
  destruct (checkInputs_playback_only i s) as (calls & E & F).
  pose proof (checkInputs_sleepCounter W i s) as Hs.
  exists calls. split; [done |]. split; [done |].
  unfold loop. destruct (checkInputs W i s) as [d s1]. cbn [fst snd] in *.
  rewrite adjustVolume_trace.
  assert (idle_time i s1 = idle_time i s) as Hidle
    by (unfold idle_time; by rewrite Hs).
  destruct (d || MP3player_isPlaying W s1) eqn:Hact; cbn [negb andb].
  - rewrite (handleSleep_active W i d s1 Hact). simpl.
    by rewrite E, <- !app_assoc.
  - destruct (Z.leb_spec SLEEP_DELAY (idle_time i s)) as [Hge | Hlt].
    + rewrite <- Hidle in Hge. rewrite (handleSleep_sleeping W i d s1 Hact Hge).
      destruct (sleepNow_effect W
                  (set_sleepCounter W (to_long (millis_sleep i)) s1)) as [-> _].
      simpl. by rewrite E, <- !app_assoc.
    + rewrite <- Hidle in Hlt. rewrite (handleSleep_waiting W i d s1 Hact Hlt).
      by rewrite E, <- !app_assoc.
Qed.

Lemma power_events_app t u :
  power_events (t ++ u) = power_events t ++ power_events u.
Proof. unfold power_events. apply filter_app. Qed.

Lemma power_events_playback calls :
  forallb is_playback calls = true -> power_events calls = [].
Proof.
  induction calls as [| e calls IH]; [done |]. simpl.
  intros [He Hc]%andb_true_iff. unfold power_events.
  rewrite filter_cons_False by (by destruct e). by apply IH.
Qed.

Lemma loop_power_events i s :
  power_events (trace (loop W i s)) = power_events (trace s)
  \/ power_events (trace (loop W i s)) = power_events (trace s) ++ sleep_calls.
Proof.
  assert (Hv : forall a b, power_events [EvSetVolume a b] = []) by done.
  assert (Hs : power_events sleep_calls = sleep_calls) by done.
  destruct (loop_trace i s) as (calls & F & _ & ->).
  rewrite !power_events_app, (power_events_playback calls F), Hv.
  assert (Hn : power_events [] = []) by done.
  destruct (_ && _); [right | left].
  - by rewrite Hs, app_nil_r.
  - by rewrite Hn, !app_nil_r.
Qed.

Lemma run_power_events inputs s :
  exists k, (k <= length inputs)%nat
    /\ power_events (trace (run W inputs s))
       = power_events (trace s) ++ concat (replicate k sleep_calls).
Proof.
  revert s. induction inputs as [| i inputs IH]; intros s.
  - exists 0%nat. simpl. by rewrite app_nil_r.
  - destruct (IH (loop W i s)) as (k & Hk & E). unfold run in *. simpl.
    rewrite E. destruct (loop_power_events i s) as [-> | ->].
    + exists k. split; [lia | done].
    + exists (S k). split; [lia |]. simpl. by rewrite <- !app_assoc.
Qed.

End Calls.

(** X5: the calls of one pass come in a fixed order: first the calls that
    stop or start tracks, issued while the inputs are examined; then, only
    if no interaction was flagged, nothing plays and the idle time has
    reached SLEEP_DELAY, the attach-sleep-detach of sleep mode; last, one
    [setVolume] with the current volume. *)
Theorem loop_calls_in_order (W : World) (i : Inputs) (s : State W) :
  exists calls,
    forallb is_playback calls = true
    /\ trace (snd (checkInputs W i s)) = trace s ++ calls
    /\ trace (loop W i s)
       = trace s ++ calls
         ++ (if negb (fst (checkInputs W i s)
                      || MP3player_isPlaying W (snd (checkInputs W i s)))
                && (SLEEP_DELAY <=? idle_time i s)
             then sleep_calls else [])
         ++ [EvSetVolume (volume (loop W i s)) (volume (loop W i s))].
Proof. apply loop_trace. Qed.

(** X6: over any number of passes from power-up, the calls to the power
    hardware are whole attach-sleep-detach rounds, at most one per pass:
    every attach is followed by its detach before the next attach, the
    device sleeps only between the two, and no pass ends with the wake
    interrupts attached. *)
Theorem power_calls_are_paired (W : World) (a : Audio W)
  (inputs : list Inputs) :
  exists k, (k <= length inputs)%nat
    /\ power_events (trace (run W inputs (setup W (boot W a))))
       = concat (replicate k sleep_calls).
Proof.
  destruct (run_power_events W inputs (setup W (boot W a))) as (k & Hk & E).
  exists k. split; [done |]. rewrite E.
  assert (trace (setup W (boot W a)) = []) as ->; [| done].
  unfold setup, readRootDirnames. cbv zeta.
  generalize (set_result W (MP3player_begin W)
                (set_result W (sd_begin W) (boot W a)))
             (eq_refl : trace (set_result W (MP3player_begin W)
                                 (set_result W (sd_begin W) (boot W a))) = []).
  induction (sd_root W) as [| e es IH]; intros s Hs; [done |].
  simpl. apply IH. unfold keep_dirname. destruct e as [name isDir].
  by destruct (_ && _).
Qed.

(** ** The rate limit and the idle timer *)

Lemma to_ulong_sub_to_long a b : to_ulong (a - to_long b) = to_ulong (a - b).
Proof.
  unfold to_ulong, to_long.
  rewrite (Z.mod_eq (b + 2 ^ 31) (2 ^ 32)) by lia.
  replace (a - (b + 2 ^ 31 - 2 ^ 32 * ((b + 2 ^ 31) `div` 2 ^ 32) - 2 ^ 31))
    with (a - b + ((b + 2 ^ 31) `div` 2 ^ 32) * 2 ^ 32) by lia.
  apply Z_mod_plus_full.
Qed.

Section Clocks.

Variable W : World.
Implicit Types s : State W.

Lemma setup_kept_refl s : setup_kept s s.
Proof. by unfold setup_kept. Qed.

Lemma setup_kept_trans s1 s2 s3 :
  setup_kept s1 s2 -> setup_kept s2 s3 -> setup_kept s1 s3.
Proof. unfold setup_kept. intros [? ?] [? ?]. split; congruence. Qed.

Lemma stopTrack_setup_kept s : setup_kept s (MP3player_stopTrack W s).
Proof. by unfold setup_kept. Qed.

Lemma playMp3File_setup_kept fileNum s :
  setup_kept s (playMp3File W fileNum s).
Proof.
  unfold playMp3File, filename_read, MP3player_playMP3. simpl.
  destruct (playMP3 W _ _) as [code a]. by destruct (code =? 0).
Qed.

Lemma playNextTrack_setup_kept s : setup_kept s (playNextTrack W s).
Proof.
  unfold playNextTrack. destruct (_ <=? _); [| apply setup_kept_refl].
  unfold filename_row. rewrite bool_decide_true by done.
  eapply setup_kept_trans; [| apply playMp3File_setup_kept].
  by unfold setup_kept.
Qed.

Lemma playPreviousTrack_setup_kept s : setup_kept s (playPreviousTrack W s).
Proof.
  unfold playPreviousTrack. destruct (_ >=? _); [| apply setup_kept_refl].
  unfold filename_row. rewrite bool_decide_true by done.
  eapply setup_kept_trans; [| apply playMp3File_setup_kept].
  by unfold setup_kept.
Qed.

Lemma keep_filename_setup_kept entries index s :
  setup_kept s (snd (foldl (keep_filename W) (index, s) entries)).
Proof.
  revert index s. induction entries as [| e entries IH]; intros index s.
  - apply setup_kept_refl.
  - simpl. destruct (negb _); [| apply IH].
    eapply setup_kept_trans; [| apply IH].
    unfold filename_strcpy. by destruct (in_bounds index).
Qed.

Lemma readFilenames_setup_kept dirNum s :
  setup_kept s (readFilenames W dirNum s).
Proof.
  unfold readFilenames, stopPlayback.
  eapply setup_kept_trans; [| apply playMp3File_setup_kept].
  match goal with |- context [sd_list W ?d] =>
    destruct (sd_list W d) as [entries|] end; [| by unfold setup_kept].
  eapply setup_kept_trans;
    [| eapply setup_kept_trans;
         [apply (keep_filename_setup_kept entries 0) | by unfold setup_kept]].
  by unfold setup_kept.
Qed.

Lemma checkDirectory_setup_kept i d s :
  setup_kept s (snd (checkDirectory W i d s)).
Proof.
  unfold checkDirectory, stopPlayback.
  destruct (negb (_ =? 0)); [destruct (negb (_ =? last_dir s)) |].
  - rewrite bool_decide_false by done. cbn [snd].
    eapply setup_kept_trans; [| apply readFilenames_setup_kept].
    by destruct (MP3player_isPlaying _ _).
  - cbn [snd]. destruct (negb _);
      [apply playNextTrack_setup_kept | apply setup_kept_refl].
  - by destruct (MP3player_isPlaying W s).
Qed.

Lemma checkVolume_setup_kept i d s :
  setup_kept s (snd (checkVolume W i d s)).
Proof.
  unfold checkVolume. destruct (negb (_ =? 0)); [| done]. by destruct (negb _).
Qed.

Lemma checkSwitches_setup_kept i d s :
  setup_kept s (snd (checkSwitches W i d s)).
Proof.
  unfold checkSwitches. cbn [snd].
  eapply setup_kept_trans with (s2 := checkPreviousSwitch W i s).
  - unfold checkPreviousSwitch. destruct (_ && _); [| by unfold setup_kept].
    eapply setup_kept_trans; [| by unfold setup_kept].
    destruct (_ >=? _); [| apply playPreviousTrack_setup_kept].
    eapply setup_kept_trans; [apply stopTrack_setup_kept |].
    apply playMp3File_setup_kept.
  - unfold checkNextSwitch. destruct (_ && _); [| by unfold setup_kept].
    eapply setup_kept_trans; [apply playNextTrack_setup_kept |].
    by unfold setup_kept.
Qed.

Lemma handleSleep_setup_kept i d s : setup_kept s (handleSleep W i d s).
Proof.
  unfold handleSleep. destruct (_ && _); [| done]. by destruct (_ >=? _).
Qed.

Lemma adjustVolume_setup_kept s : setup_kept s (adjustVolume W s).
Proof. unfold adjustVolume. zcases; done. Qed.

(** The rate-limit clock after a pass. *)

Lemma loop_buttonLastChecked i s :
  buttonLastChecked (loop W i s)
  = if selectors_due i s then to_long (millis_checked i)
    else if buttonLastChecked s =? 0
         then to_long (millis_first i + BUTTONDELAY)
         else buttonLastChecked s.
Proof.
  unfold loop, checkInputs.
  assert (buttonLastChecked (snd (checkVoltageDividers W i false s))
          = if selectors_due i s then to_long (millis_checked i)
            else if buttonLastChecked s =? 0
                 then to_long (millis_first i + BUTTONDELAY)
                 else buttonLastChecked s) as H1.
  { destruct (selectors_due i s) eqn:Hdue.
    - by rewrite (checkVoltageDividers_due W i false s Hdue).
    - rewrite (checkVoltageDividers_not_due W i false s Hdue). cbn [snd].
      by destruct (buttonLastChecked s =? 0). }
  destruct (checkVoltageDividers W i false s) as [d1 s1]. cbn [snd] in H1.
  pose proof (checkSwitches_setup_kept i d1 s1) as [H2 _].
  destruct (checkSwitches W i d1 s1) as [d2 s2]. cbn [snd] in H2.
  destruct (handleSleep_setup_kept i d2 s2) as [H3 _].
  destruct (adjustVolume_setup_kept (handleSleep W i d2 s2)) as [H4 _].
  by rewrite H4, H3, H2.
Qed.

Lemma loop_dirname i s : dirname (loop W i s) = dirname s.
Proof.
  unfold loop, checkInputs.
  assert (dirname (snd (checkVoltageDividers W i false s)) = dirname s) as H1.
  { destruct (selectors_due i s) eqn:Hdue.
    - rewrite (checkVoltageDividers_due W i false s Hdue). cbv zeta.
      cbn [snd dirname set_buttonLastChecked].
      set (s0 := if buttonLastChecked s =? 0 then _ else s).
      assert (dirname s0 = dirname s) as <-
        by (subst s0; by destruct (buttonLastChecked s =? 0)).
      destruct (checkDirectory_setup_kept i false s0) as [_ Hd].
      destruct (checkVolume_setup_kept i (fst (checkDirectory W i false s0))
                  (snd (checkDirectory W i false s0))) as [_ Hv].
      by rewrite Hv, Hd.
    - rewrite (checkVoltageDividers_not_due W i false s Hdue). cbn [snd].
      by destruct (buttonLastChecked s =? 0). }
  destruct (checkVoltageDividers W i false s) as [d1 s1]. cbn [snd] in H1.
  pose proof (checkSwitches_setup_kept i d1 s1) as [_ H2].
  destruct (checkSwitches W i d1 s1) as [d2 s2]. cbn [snd] in H2.
  destruct (handleSleep_setup_kept i d2 s2) as [_ H3].
  destruct (adjustVolume_setup_kept (handleSleep W i d2 s2)) as [_ H4].
  by rewrite H4, H3, H2.
Qed.

Lemma loop_sleepCounter i s :
  let d := fst (checkInputs W i s) in
  let s1 := snd (checkInputs W i s) in
  sleepCounter (loop W i s)
  = if d || MP3player_isPlaying W s1 then to_long (millis_active i)
    else if SLEEP_DELAY <=? idle_time i s then to_long (millis_sleep i)
         else sleepCounter s.
Proof.
  cbv zeta. pose proof (checkInputs_sleepCounter W i s) as Hs.
  unfold loop. destruct (checkInputs W i s) as [d s1]. cbn [fst snd] in *.
  destruct (adjustVolume_frame W (handleSleep W i d s1)) as (_ & _ & -> & _).
  assert (idle_time i s1 = idle_time i s) as Hidle
    by (unfold idle_time; by rewrite Hs).
  destruct (d || MP3player_isPlaying W s1) eqn:Hact.
  - by rewrite (handleSleep_active W i d s1 Hact).
  - destruct (Z.leb_spec SLEEP_DELAY (idle_time i s)) as [Hge | Hlt].
    + rewrite <- Hidle in Hge. rewrite (handleSleep_sleeping W i d s1 Hact Hge).
      by destruct (sleepNow_effect W
                     (set_sleepCounter W (to_long (millis_sleep i)) s1)) as [_ ->].
    + rewrite <- Hidle in Hlt. by rewrite (handleSleep_waiting W i d s1 Hact Hlt).
Qed.

End Clocks.

(** X7: the first pass after power-up reads the selectors: with the
    rate-limit clock still 0 and less than BUTTONDELAY between the
    [millis()] calls of lines 242 and 247, the check of line 247
    succeeds, and the pass leaves the clock at the time of the reading. *)
Theorem first_pass_reads_selectors (W : World) (i : Inputs) (s : State W)
  (Hfirst : buttonLastChecked s = 0)
  (Hclock : 0 <= millis_gate i - millis_first i < BUTTONDELAY) :
  selectors_due i s = true
  /\ buttonLastChecked (loop W i s) = to_long (millis_checked i).
Proof.
  assert (selectors_due i s = true) as Hdue.
  { unfold selectors_due. rewrite Hfirst. simpl.
    rewrite to_ulong_sub_to_long. unfold to_ulong, BUTTONDELAY in *.
    replace (millis_gate i - (millis_first i + 1000))
      with (millis_gate i - millis_first i + 2 ^ 32 - 1000 + (-1) * 2 ^ 32) by lia.
    rewrite Z_mod_plus_full, Z.mod_small by lia.
    rewrite Z.gtb_ltb. destruct (Z.ltb_spec 1000
      (millis_gate i - millis_first i + 2 ^ 32 - 1000)); [done | lia]. }
  split; [done |]. by rewrite loop_buttonLastChecked, Hdue.
Qed.

Lemma first_pass_reads_selectors_witness :
  selectors_due (Bench.pass 2000 Bench.at3 Bench.open HIGH HIGH)
    Bench.powered_up = true.
Proof.
  apply (first_pass_reads_selectors Bench.blank
           (Bench.pass 2000 Bench.at3 Bench.open HIGH HIGH) Bench.powered_up).
  - reflexivity.
  - simpl. unfold BUTTONDELAY. lia.
Defined.

(** X8: after a pass that read the selectors at time t (not 0 modulo
    2^32), a later pass reads them again exactly when more than
    BUTTONDELAY ms have passed since t on the 32-bit clock; until then
    the pass leaves the selectors alone, whatever they show. *)
Theorem selectors_rate_limit (W : World) (i1 i2 : Inputs) (s : State W)
  (Hdue : selectors_due i1 s = true)
  (Hnonzero : to_long (millis_checked i1) <> 0) :
  selectors_due i2 (loop W i1 s)
  = (BUTTONDELAY <? to_ulong (millis_gate i2 - millis_checked i1))
  /\ (to_ulong (millis_gate i2 - millis_checked i1) <= BUTTONDELAY ->
        forall d, checkVoltageDividers W i2 d (loop W i1 s) = (d, loop W i1 s)).
Proof.
  assert (buttonLastChecked (loop W i1 s) = to_long (millis_checked i1)) as Hb
    by (by rewrite loop_buttonLastChecked, Hdue).
  assert (selectors_due i2 (loop W i1 s)
          = (BUTTONDELAY <? to_ulong (millis_gate i2 - millis_checked i1))) as Hd.
  { unfold selectors_due. rewrite Hb.
    destruct (Z.eqb_spec (to_long (millis_checked i1)) 0); [done |].
    by rewrite to_ulong_sub_to_long, Z.gtb_ltb. }
  split; [done |]. intros Hle d.
  rewrite checkVoltageDividers_not_due.
  - rewrite Hb. by destruct (Z.eqb_spec (to_long (millis_checked i1)) 0).
  - rewrite Hd. destruct (Z.ltb_spec BUTTONDELAY
      (to_ulong (millis_gate i2 - millis_checked i1))); [lia | done].
Qed.

Lemma selectors_rate_limit_witness :
  selectors_due (Bench.pass 2500 Bench.at1 Bench.open HIGH HIGH)
    Bench.playing3 = false.
Proof.
  assert (Hdue : selectors_due (Bench.pass 2000 Bench.at3 Bench.open HIGH HIGH)
                   (setup Bench.three_tracks
                      (boot Bench.three_tracks Bench.idle)) = true)
    by reflexivity.
  assert (Hnonzero : to_long (millis_checked
                        (Bench.pass 2000 Bench.at3 Bench.open HIGH HIGH)) <> 0)
    by (vm_compute; discriminate).
  exact (proj1 (selectors_rate_limit Bench.three_tracks
                  (Bench.pass 2000 Bench.at3 Bench.open HIGH HIGH)
                  (Bench.pass 2500 Bench.at1 Bench.open HIGH HIGH)
                  (setup Bench.three_tracks (boot Bench.three_tracks Bench.idle))
                  Hdue Hnonzero)).
Defined.

(** X9: the idle timer measures on the 32-bit clock since the last pass
    with interaction or playback.  If such a pass set the timer at time t
    (line 389) and the next pass has neither interaction nor playback,
    that pass goes to sleep exactly when the unsigned 32-bit difference
    between its clock reading and t has reached SLEEP_DELAY, also when
    [millis()] has wrapped around in between; going to sleep sets the
    timer to the time of line 384, and otherwise the timer still holds
    t. *)
Theorem sleep_after_idle_time (W : World) (i1 i2 : Inputs) (s : State W)
  (Hactive : fst (checkInputs W i1 s)
             || MP3player_isPlaying W (snd (checkInputs W i1 s)) = true)
  (Hquiet : fst (checkInputs W i2 (loop W i1 s))
            || MP3player_isPlaying W (snd (checkInputs W i2 (loop W i1 s)))
            = false) :
  let slept := SLEEP_DELAY <=? to_ulong (millis_idle i2 - millis_active i1) in
  sleepCounter (loop W i1 s) = to_long (millis_active i1)
  /\ sleepCounter (loop W i2 (loop W i1 s))
     = (if slept then to_long (millis_sleep i2) else to_long (millis_active i1))
  /\ power_events (trace (loop W i2 (loop W i1 s)))
     = power_events (trace (loop W i1 s)) ++ (if slept then sleep_calls else []).
Proof.
  cbv zeta.
  assert (sleepCounter (loop W i1 s) = to_long (millis_active i1)) as H1
    by (by rewrite loop_sleepCounter, Hactive).
  assert (idle_time i2 (loop W i1 s)
          = to_ulong (millis_idle i2 - millis_active i1)) as Hidle
    by (unfold idle_time; by rewrite H1, to_ulong_sub_to_long).
  split; [done |]. split.
  - by rewrite loop_sleepCounter, Hquiet, Hidle, H1.
  - destruct (loop_trace W i2 (loop W i1 s)) as (calls & F & _ & ->).
    rewrite Hquiet, Hidle. cbn [negb andb].
    rewrite !power_events_app, (power_events_playback calls F).
    by destruct (_ <=? _).
Qed.

Lemma sleep_after_idle_time_witness :
  sleepCounter (loop Bench.three_tracks Bench.late
                  (loop Bench.three_tracks Bench.release Bench.playing3))
  = 30000.
Proof.
  assert (Hactive :
    fst (checkInputs Bench.three_tracks Bench.release Bench.playing3)
    || MP3player_isPlaying Bench.three_tracks
         (snd (checkInputs Bench.three_tracks Bench.release Bench.playing3))
    = true) by reflexivity.
  assert (Hquiet :
    fst (checkInputs Bench.three_tracks Bench.late
           (loop Bench.three_tracks Bench.release Bench.playing3))
    || MP3player_isPlaying Bench.three_tracks
         (snd (checkInputs Bench.three_tracks Bench.late
                 (loop Bench.three_tracks Bench.release Bench.playing3)))
    = false) by reflexivity.
  exact (proj1 (proj2 (sleep_after_idle_time Bench.three_tracks Bench.release
                         Bench.late Bench.playing3 Hactive Hquiet))).
Defined.

(** ** Ranges of the globals *)

Section Ranges.

Variable W : World.
Implicit Types s : State W.

Lemma playMp3File_tracks_ok fileNum s :
  0 <= fileNum <= MAX_NUM_FILES -> tracks_ok s ->
  tracks_ok (playMp3File W fileNum s).
Proof.
  intros Hn (Hd & Hf & Hld & Hlf).
  unfold playMp3File, filename_read, MP3player_playMP3. simpl.
  destruct (playMP3 W _ _) as [code a].
  destruct (code =? 0); by unfold tracks_ok.
Qed.

Lemma playNextTrack_tracks_ok s : tracks_ok s -> tracks_ok (playNextTrack W s).
Proof.
  intros (Hd & Hf & Hld & Hlf). unfold playNextTrack.
  destruct (Z.leb_spec (last_file s + 1) MAX_NUM_FILES); [| by unfold tracks_ok].
  unfold filename_row. rewrite bool_decide_true by done.
  apply playMp3File_tracks_ok.
  - simpl. rewrite to_byte_small by (unfold MAX_NUM_FILES in *; lia). lia.
  - unfold tracks_ok. simpl.
    rewrite to_byte_small by (unfold MAX_NUM_FILES in *; lia).
    repeat split; try done; lia.
Qed.

Lemma playPreviousTrack_tracks_ok s :
  tracks_ok s -> tracks_ok (playPreviousTrack W s).
Proof.
  intros (Hd & Hf & Hld & Hlf). unfold playPreviousTrack. rewrite Z.geb_leb.
  destruct (Z.leb_spec 0 (last_file s - 1)); [| by unfold tracks_ok].
  unfold filename_row. rewrite bool_decide_true by done.
  apply playMp3File_tracks_ok.
  - simpl. rewrite to_byte_small by (unfold MAX_NUM_FILES in *; lia). lia.
  - unfold tracks_ok. simpl.
    rewrite to_byte_small by (unfold MAX_NUM_FILES in *; lia).
    repeat split; try done; lia.
Qed.

Lemma keep_filename_tracks entries index s :
  let s' := snd (foldl (keep_filename W) (index, s) entries) in
  length (filename s') = length (filename s)
  /\ last_dir s' = last_dir s /\ last_file s' = last_file s.
Proof.
  revert index s. induction entries as [| e entries IH]; intros index s; [done |].
  simpl. destruct (negb _); [| apply IH].
  destruct (IH (to_byte (index + 1)) (filename_strcpy W index e s))
    as (-> & -> & ->).
  unfold filename_strcpy. destruct (in_bounds index); simpl; [| done].
  by rewrite length_insert.
Qed.

Lemma readFilenames_tracks_ok dirNum s :
  tracks_ok s -> tracks_ok (readFilenames W dirNum s).
Proof.
  intros (Hd & Hf & Hld & Hlf). unfold readFilenames, stopPlayback.
  apply playMp3File_tracks_ok; [unfold MAX_NUM_FILES; lia |].
  match goal with |- context [sd_list W ?d] =>
    destruct (sd_list W d) as [entries|] end.
  - match goal with |- context [foldl (keep_filename W) (0, ?t) entries] =>
      pose proof (keep_filename_tracks entries 0 t) as (Hl & Hx & _);
      pose proof (keep_filename_setup_kept W entries 0 t) as [_ Hn] end.
    unfold tracks_ok. cbn [dirname filename last_dir last_file set_last_file].
    rewrite Hl, Hx, Hn. simpl. rewrite ?length_replicate.
    repeat split; try done; unfold MAX_NUM_FILES; lia.
  - unfold tracks_ok. simpl. repeat split; try done; unfold MAX_NUM_FILES; lia.
Qed.

Lemma checkDirectory_tracks_ok i d s :
  tracks_ok s -> tracks_ok (snd (checkDirectory W i d s)).
Proof.
  intros Hok. pose proof Hok as (Hd & Hf & Hld & Hlf).
  pose proof (buttonPushed_range (analog_directory i)) as Hr.
  unfold checkDirectory, stopPlayback.
  destruct (negb (_ =? 0)); [destruct (negb (_ =? last_dir s)) |].
  - rewrite bool_decide_false by done. cbn [snd].
    apply readFilenames_tracks_ok. rewrite to_byte_buttonPushed.
    destruct (MP3player_isPlaying _ _); by unfold tracks_ok.
  - cbn [snd]. destruct (negb _); [by apply playNextTrack_tracks_ok | done].
  - destruct (MP3player_isPlaying W s); unfold tracks_ok; simpl;
      repeat split; try done; unfold MAX_NUM_FILES; lia.
Qed.

Lemma checkVolume_tracks_ok i d s :
  tracks_ok s -> tracks_ok (snd (checkVolume W i d s)).
Proof.
  intros Hok. unfold checkVolume.
  destruct (negb (_ =? 0)); [| done]. by destruct (negb _).
Qed.

Lemma checkSwitches_tracks_ok i d s :
  tracks_ok s -> tracks_ok (snd (checkSwitches W i d s)).
Proof.
  intros Hok. unfold checkSwitches. cbn [snd].
  assert (tracks_ok (checkPreviousSwitch W i s)) as Hp.
  { unfold checkPreviousSwitch. destruct (_ && _); [| done].
    assert (forall t, tracks_ok t -> tracks_ok (set_previousTrackSwitchOn W true t))
      as Hset by done.
    apply Hset. destruct (_ >=? _); [| by apply playPreviousTrack_tracks_ok].
    apply playMp3File_tracks_ok; [| done]. by destruct Hok as (_ & _ & _ & ?). }
  unfold checkNextSwitch. destruct (_ && _); [| done].
  assert (forall t, tracks_ok t -> tracks_ok (set_nextTrackSwitchOn W true t))
    as Hset by done.
  apply Hset. by apply playNextTrack_tracks_ok.
Qed.

Lemma checkInputs_tracks_ok i s :
  tracks_ok s -> tracks_ok (snd (checkInputs W i s)).
Proof.
  intros Hok. unfold checkInputs.
  assert (tracks_ok (snd (checkVoltageDividers W i false s))) as H1.
  { unfold checkVoltageDividers.
    set (s0 := if buttonLastChecked s =? 0 then _ else s).
    assert (tracks_ok s0) as H0
      by (subst s0; by destruct (buttonLastChecked s =? 0)).
    destruct (_ >? _); [| done].
    pose proof (checkDirectory_tracks_ok i false s0 H0) as Hd.
    destruct (checkDirectory W i false s0) as [d2 s2]. cbn [snd] in Hd.
    pose proof (checkVolume_tracks_ok i d2 s2 Hd) as Hv.
    by destruct (checkVolume W i d2 s2) as [d3 s3]. }
  destruct (checkVoltageDividers W i false s) as [d1 s1]. cbn [snd] in H1.
  by apply checkSwitches_tracks_ok.
Qed.

Lemma loop_tracks_ok i s : tracks_ok s -> tracks_ok (loop W i s).
Proof.
  intros Hok. pose proof (checkInputs_tracks_ok i s Hok) as H1.
  unfold loop. destruct (checkInputs W i s) as [d s1]. cbn [snd] in H1.
  assert (tracks_ok (handleSleep W i d s1)) as H2.
  { unfold handleSleep. destruct (_ && _); [| done]. by destruct (_ >=? _). }
  revert H2. generalize (handleSleep W i d s1). intros s2 H2.
  unfold adjustVolume. zcases; done.
Qed.

Lemma loop_state_ok i s : state_ok s -> state_ok (loop W i s).
Proof.
  intros (Hd & Hf & Hld & Hlf & Hv & Ht).
  destruct (loop_tracks_ok i s) as (Hd' & Hf' & Hld' & Hlf'); [done |].
  destruct (loop_volume W i s Hv Ht) as (_ & _ & _ & Hv' & Ht').
  by unfold state_ok.
Qed.

Lemma run_state_ok inputs s : state_ok s -> state_ok (run W inputs s).
Proof.
  revert s. induction inputs as [| i inputs IH]; intros s Hok; [done |].
  apply (IH (loop W i s)). by apply loop_state_ok.
Qed.

Lemma readRootDirnames_frame entries s :
  let s' := foldl (keep_dirname W) s entries in
  length (dirname s') = length (dirname s)
  /\ filename s' = filename s /\ last_dir s' = last_dir s
  /\ last_file s' = last_file s /\ volume s' = volume s
  /\ target_vol s' = target_vol s /\ trace s' = trace s
  /\ subscripts s' = subscripts s.
Proof.
  revert s. induction entries as [| e entries IH]; intros s; [done |].
  simpl. destruct (IH (keep_dirname W s e)) as (-> & -> & -> & -> & -> & -> & -> & ->).
  unfold keep_dirname. destruct e as [name isDir].
  destruct (_ && _); [| done]. simpl. by rewrite length_insert.
Qed.

End Ranges.

(** X10: on a card whose directories each hold at most MAX_NUM_FILES
    copied names, in every state the sketch reaches from power-up,
    whatever the decoder and the inputs of the passes, [dirname] has its 5
    rows and [filename] its MAX_NUM_FILES rows, the selected directory is
    0..5, the track index is 0..MAX_NUM_FILES, and the current and the
    target volume are 0..60. *)
Theorem reachable_state_ok (W : World) (a : Audio W) (inputs : list Inputs)
  (Hcard : card_fits W) :
  state_ok (run W inputs (setup W (boot W a))).
Proof.
  apply run_state_ok. unfold setup, readRootDirnames. cbv zeta.
  destruct (readRootDirnames_frame W (sd_root W)
              (set_result W (MP3player_begin W)
                 (set_result W (sd_begin W) (boot W a))))
    as (Hd & Hf & Hld & Hlf & Hv & Ht & _).
  unfold state_ok. rewrite Hd, Hf, Hld, Hlf, Hv, Ht. simpl.
  unfold MAX_NUM_FILES. repeat split; lia.
Qed.

Lemma reachable_state_ok_witness :
  state_ok (run Bench.three_tracks
              [Bench.pass 2000 Bench.at3 Bench.open HIGH HIGH;
               Bench.pass 2100 Bench.at3 Bench.open HIGH LOW;
               Bench.release]
              (setup Bench.three_tracks (boot Bench.three_tracks Bench.idle))).
Proof.
  apply reachable_state_ok.
  intros dir entries. unfold Bench.three_tracks, Bench.card3, Bench.world,
    Bench.card_list. simpl.
  destruct (decide (_ = dir)); simpl; [| discriminate].
  intros [= <-]. vm_compute. lia.
Defined.

(** ** Reading the card *)

Section Card.

Variable W : World.
Implicit Types s : State W.

Lemma registers_index k name isDir :
  registers k (name, isDir) = true -> (k < 5)%nat ->
  (first_char name >=? 49) && (first_char name <=? 53) && isDir = true
  /\ Z.to_nat (to_byte (first_char name - 49)) = k.
Proof.
  unfold registers. simpl. intros [Hc ->]%andb_true_iff Hk.
  apply Z.eqb_eq in Hc. rewrite Hc. split.
  - rewrite Z.geb_leb. zcases; first [done | lia].
  - rewrite to_byte_small by lia. lia.
Qed.

Lemma keep_dirname_row k e s :
  (k < 5)%nat -> length (dirname s) = 5%nat ->
  length (dirname (keep_dirname W s e)) = 5%nat
  /\ dirname (keep_dirname W s e) !! k
     = if registers k e then Some (fst e) else dirname s !! k.
Proof.
  intros Hk Hlen. destruct e as [name isDir].
  destruct (registers k (name, isDir)) eqn:Hreg.
  - destruct (registers_index k name isDir Hreg Hk) as [Hcond Hidx].
    unfold keep_dirname. rewrite Hcond, Hidx. simpl.
    rewrite length_insert. split; [done |].
    apply list_lookup_insert_eq. lia.
  - unfold keep_dirname.
    destruct ((first_char name >=? 49) && (first_char name <=? 53) && isDir)
      eqn:Hcond; [| done].
    simpl. rewrite length_insert. split; [done |].
    apply list_lookup_insert_ne. intros Heq.
    apply andb_true_iff in Hcond as [[Hlo Hhi]%andb_true_iff ->].
    rewrite Z.geb_leb in Hlo. apply Z.leb_le in Hlo, Hhi.
    rewrite to_byte_small in Heq by lia.
    unfold registers in Hreg. simpl in Hreg. rewrite andb_true_r in Hreg.
    apply Z.eqb_neq in Hreg. lia.
Qed.

Lemma keep_dirname_rows entries k s :
  (k < 5)%nat -> length (dirname s) = 5%nat ->
  dirname (foldl (keep_dirname W) s entries) !! k
  = match last (filter (fun e => registers k e = true) entries) with
    | Some e => Some (fst e)
    | None => dirname s !! k
    end.
Proof.
  intros Hk. revert s. induction entries as [| e entries IH]; intros s Hlen;
    [done |].
  destruct (keep_dirname_row k e s Hk Hlen) as [Hlen' Hrow].
  simpl. rewrite (IH _ Hlen'), Hrow.
  destruct (registers k e) eqn:Hreg.
  - rewrite filter_cons_True by done. rewrite last_cons.
    by destruct (last _).
  - rewrite filter_cons_False by (by rewrite Hreg). done.
Qed.

(** The rows of [filename] while [readFilenames] copies the names. *)

Lemma keep_filename_fill entries index s written m :
  let names := filter (fun name => eligible name = true) entries in
  filename s = written ++ replicate m EmptyString ->
  Z.of_nat (length written) = index ->
  (length written + m = Z.to_nat MAX_NUM_FILES)%nat ->
  (length names <= m)%nat ->
  let s' := snd (foldl (keep_filename W) (index, s) entries) in
  filename s' = written ++ names ++ replicate (m - length names) EmptyString
  /\ subscripts_ok_since s s'.
Proof.
  cbv zeta. revert index s written m.
  induction entries as [| e entries IH]; intros index s written m Hf Hi Hm Hn.
  - simpl. rewrite Nat.sub_0_r. split; [done |]. exists []. by rewrite app_nil_r.
  - simpl. change (negb (first_char e =? 95)) with (eligible e).
    destruct (eligible e) eqn:He.
    + rewrite filter_cons_True in Hn by done. rewrite filter_cons_True by done.
      simpl in Hn. destruct m as [| m]; [lia |].
      assert (in_bounds index = true) as Hin.
      { unfold in_bounds, MAX_NUM_FILES in *. zcases; lia. }
      assert (to_byte (index + 1) = index + 1) as Hb.
      { apply to_byte_small. unfold MAX_NUM_FILES in *. lia. }
      rewrite Hb.
      destruct (IH (index + 1) (filename_strcpy W index e s)
                  (written ++ [e]) m) as [Hfill (used & Hu & Hok)].
      * unfold filename_strcpy. rewrite Hin. simpl. rewrite Hf.
        rewrite insert_app_r_alt by lia.
        replace (Z.to_nat index - length written)%nat with 0%nat by lia.
        simpl. by rewrite <- app_assoc.
      * rewrite length_app. simpl. lia.
      * rewrite length_app. simpl. lia.
      * lia.
      * split.
        -- rewrite Hfill, <- app_assoc. simpl. done.
        -- exists (AccWrite index :: used). split.
           ++ rewrite Hu. unfold filename_strcpy. rewrite Hin. simpl.
              by rewrite <- app_assoc.
           ++ simpl. rewrite Hok. unfold access_ok. simpl. by rewrite Hin.
    + rewrite filter_cons_False in Hn by (by rewrite He).
      rewrite filter_cons_False by (by rewrite He).
      by apply IH.
Qed.

(** What [readFilenames] leaves. *)

Lemma readFilenames_spec dirNum s :
  let dir := default EmptyString (dirname s !! Z.to_nat (dirNum - 1)) in
  let names := match sd_list W dir with
               | Some entries => filter (fun name => eligible name = true) entries
               | None => []
               end in
  let s' := readFilenames W dirNum s in
  (length names <= Z.to_nat MAX_NUM_FILES)%nat ->
  filename s'
  = names ++ replicate (Z.to_nat MAX_NUM_FILES - length names) EmptyString
  /\ subscripts_ok_since s s'
  /\ exists code,
       trace s' = trace s ++ [EvStop; EvPlay (default EmptyString (head names)) code]
       /\ result s' = code
       /\ last_file s' = (if code =? 0 then 1 else 0).
Proof.
  cbv zeta. intros Hfit. unfold readFilenames, stopPlayback.
  cbn [dirname set_filename MP3player_stopTrack emit set_player].
  set (dir := default EmptyString (dirname s !! Z.to_nat (dirNum - 1))) in *.
  set (cleared := set_filename W (replicate (Z.to_nat MAX_NUM_FILES) EmptyString)
                    (MP3player_stopTrack W s)).
  set (names := match sd_list W dir with
                | Some entries => filter (fun name => eligible name = true) entries
                | None => []
                end) in *.
  set (loaded := match sd_list W dir with
                 | Some entries => snd (foldl (keep_filename W) (0, cleared) entries)
                 | None => cleared
                 end).
  assert (filename loaded
          = names ++ replicate (Z.to_nat MAX_NUM_FILES - length names) EmptyString
          /\ subscripts_ok_since cleared loaded
          /\ trace loaded = trace s ++ [EvStop]) as (Hf & (used & Hu & Hok) & Ht).
  { subst loaded names. destruct (sd_list W dir) as [entries |].
    - destruct (keep_filename_fill entries 0 cleared []
                  (Z.to_nat MAX_NUM_FILES)) as [Hfill Hsub]; try done.
      split; [done |]. split; [done |].
      by destruct (keep_filename_trace W entries 0 cleared) as [-> _].
    - split; [by rewrite Nat.sub_0_r |]. split; [| done].
      exists []. by rewrite app_nil_r. }
  unfold playMp3File, filename_read, MP3player_playMP3.
  cbn [filename set_last_file player touch].
  change (in_bounds (1 - 1)) with true. cbv iota.
  assert (default EmptyString (filename loaded !! Z.to_nat (1 - 1))
          = default EmptyString (head names)) as ->.
  { rewrite Hf. change (Z.to_nat (1 - 1)) with 0%nat.
    destruct names as [| n names']; [| done]. simpl in *.
    by destruct (Z.to_nat MAX_NUM_FILES). }
  destruct (playMP3 W _ _) as [code a].
  assert (subscripts_ok_since s (touch W (AccRead (1 - 1)) (set_last_file W 0 loaded)))
    as Hsub.
  { exists (used ++ [AccRead 0]). split.
    - simpl. rewrite Hu. by rewrite <- app_assoc.
    - by rewrite forallb_app, Hok. }
  destruct (code =? 0) eqn:Hc; simpl; rewrite Hf, Ht, <- app_assoc;
    (split; [done |]); (split; [exact Hsub |]);
    exists code; by rewrite Hc.
Qed.


End Card.

(** X11: after [readRootDirnames], row k of [dirname] (k = 0..4) holds the
    name of the last root entry that is a directory and whose name starts
    with the digit k + 1; if the root has no such entry the row is as it
    was.  Files, and directories with another first character, register
    nothing. *)
Theorem readRootDirnames_rows (W : World) (s : State W) (k : nat)
  (Hk : (k < 5)%nat) (Hlen : length (dirname s) = 5%nat) :
  dirname (readRootDirnames W s) !! k
  = match last (filter (fun e => registers k e = true) (sd_root W)) with
    | Some e => Some (fst e)
    | None => dirname s !! k
    end.
Proof. by apply keep_dirname_rows. Qed.

Lemma readRootDirnames_rows_witness :
  dirname (readRootDirnames Bench.three_tracks
             (boot Bench.three_tracks Bench.idle)) !! 2%nat
  = Some "3SONGS"%string.
Proof.
  assert (Hk : (2 < 5)%nat) by lia.
  assert (Hlen : length (dirname (boot Bench.three_tracks Bench.idle)) = 5%nat)
    by reflexivity.
  exact (readRootDirnames_rows Bench.three_tracks
           (boot Bench.three_tracks Bench.idle) 2 Hk Hlen).
Defined.

(** X12: [readFilenames] stops the decoder, then loads the directory
    registered for the position: when the directory has at most
    MAX_NUM_FILES names that do not start with an underscore, [filename]
    holds exactly these names, in the order of the card, followed by
    empty rows (all rows empty when [chdir] fails); every subscript used
    is inside the array; the decoder is then asked for the first of the
    names (the empty name if there is none), and the track index is 1 if
    it starts and 0 if not. *)
Theorem readFilenames_loads (W : World) (dirNum : Z) (s : State W) :
  let dir := default EmptyString (dirname s !! Z.to_nat (dirNum - 1)) in
  let names := match sd_list W dir with
               | Some entries => filter (fun name => eligible name = true) entries
               | None => []
               end in
  let s' := readFilenames W dirNum s in
  (length names <= Z.to_nat MAX_NUM_FILES)%nat ->
  filename s'
  = names ++ replicate (Z.to_nat MAX_NUM_FILES - length names) EmptyString
  /\ subscripts_ok_since s s'
  /\ exists code,
       trace s' = trace s ++ [EvStop; EvPlay (default EmptyString (head names)) code]
       /\ result s' = code
       /\ last_file s' = (if code =? 0 then 1 else 0).
Proof. cbv zeta. apply readFilenames_spec. Qed.

Lemma readFilenames_loads_witness :
  filename (readFilenames Bench.three_tracks 3
              (setup Bench.three_tracks (boot Bench.three_tracks Bench.idle)))
  = ["A.MP3"%string; "B.MP3"%string; "C.MP3"%string]
    ++ replicate 17 EmptyString.
Proof.
  refine (proj1 (readFilenames_loads Bench.three_tracks 3
                   (setup Bench.three_tracks
                      (boot Bench.three_tracks Bench.idle)) _)).
  vm_compute. lia.
Defined.

(** ** Stepping through the tracks *)

Section Stepping.

Variable W : World.
Implicit Types s : State W.

Lemma subscripts_ok_since_refl s : subscripts_ok_since s s.
Proof. exists []. by rewrite app_nil_r. Qed.

Lemma subscripts_ok_since_trans s1 s2 s3 :
  subscripts_ok_since s1 s2 -> subscripts_ok_since s2 s3 ->
  subscripts_ok_since s1 s3.
Proof.
  intros (u1 & E1 & F1) (u2 & E2 & F2). exists (u1 ++ u2).
  by rewrite E2, E1, <- app_assoc, forallb_app, F1, F2.
Qed.

Lemma subscripts_ok_since_same s s' :
  subscripts s' = subscripts s -> subscripts_ok_since s s'.
Proof. intros E. exists []. by rewrite app_nil_r. Qed.

Lemma playMp3File_subscripts fileNum s :
  subscripts (playMp3File W fileNum s) = subscripts s ++ [AccRead (fileNum - 1)].
Proof.
  unfold playMp3File, filename_read, MP3player_playMP3. simpl.
  destruct (playMP3 W _ _) as [code a]. by destruct (code =? 0).
Qed.

Lemma playMp3File_subscripts_ok fileNum s :
  1 <= fileNum <= MAX_NUM_FILES ->
  subscripts_ok_since s (playMp3File W fileNum s).
Proof.
  intros H. exists [AccRead (fileNum - 1)].
  split; [apply playMp3File_subscripts |].
  unfold access_ok, in_bounds, MAX_NUM_FILES in *. simpl. zcases; lia.
Qed.

(** What [playNextTrack] does below the capacity. *)

Lemma playNextTrack_below_capacity s :
  0 <= last_file s < MAX_NUM_FILES ->
  exists code,
    trace (playNextTrack W s)
    = trace s ++ [EvStop;
                  EvPlay (default EmptyString
                            (filename s !! Z.to_nat (last_file s))) code]
    /\ result (playNextTrack W s) = code
    /\ last_file (playNextTrack W s) = last_file s + 1
    /\ subscripts (playNextTrack W s)
       = subscripts s ++ [AccAddr (last_file s); AccRead (last_file s)]
    /\ filename (playNextTrack W s) = filename s
    /\ last_dir (playNextTrack W s) = last_dir s.
Proof.
  intros H. unfold playNextTrack.
  destruct (Z.leb_spec (last_file s + 1) MAX_NUM_FILES); [| lia].
  unfold filename_row. rewrite bool_decide_true by done.
  unfold playMp3File, filename_read, MP3player_playMP3. simpl.
  rewrite (to_byte_small (last_file s + 1)) by (unfold MAX_NUM_FILES in *; lia).
  replace (last_file s + 1 - 1) with (last_file s) by lia.
  assert (in_bounds (last_file s) = true) as ->.
  { unfold in_bounds. zcases; lia. }
  destruct (playMP3 W _ _) as [code a]. exists code.
  destruct (code =? 0); simpl; by rewrite <- !app_assoc.
Qed.

Lemma playNextTrack_subscripts_ok s :
  0 <= last_file s -> subscripts_ok_since s (playNextTrack W s).
Proof.
  intros H. destruct (Z_lt_le_dec (last_file s) MAX_NUM_FILES) as [Hlt | Hge].
  - destruct (playNextTrack_below_capacity s) as (code & _ & _ & _ & E & _);
      [lia |].
    exists [AccAddr (last_file s); AccRead (last_file s)]. split; [done |].
    unfold access_ok, in_bounds. simpl. zcases; lia.
  - rewrite playNextTrack_at_capacity by lia. apply subscripts_ok_since_refl.
Qed.

Lemma keep_filename_subscripts_ok entries s :
  filename s = replicate (Z.to_nat MAX_NUM_FILES) EmptyString ->
  (length (filter (fun name => eligible name = true) entries)
   <= Z.to_nat MAX_NUM_FILES)%nat ->
  subscripts_ok_since s (snd (foldl (keep_filename W) (0, s) entries)).
Proof.
  intros Hf Hfit.
  by destruct (keep_filename_fill W entries 0 s [] (Z.to_nat MAX_NUM_FILES)).
Qed.

Lemma readFilenames_subscripts_ok dirNum s :
  card_fits W -> subscripts_ok_since s (readFilenames W dirNum s).
Proof.
  intros Hfit. unfold readFilenames, stopPlayback.
  eapply subscripts_ok_since_trans;
    [| apply playMp3File_subscripts_ok; unfold MAX_NUM_FILES; lia].
  eapply subscripts_ok_since_trans; [| by apply subscripts_ok_since_same].
  match goal with |- context [sd_list W ?d] =>
    destruct (sd_list W d) as [entries|] eqn:Hlist end;
    [| by apply subscripts_ok_since_same].
  eapply subscripts_ok_since_trans;
    [| apply keep_filename_subscripts_ok; [done | by eapply Hfit]].
  by apply subscripts_ok_since_same.
Qed.

Lemma checkDirectory_subscripts_ok i d s :
  card_fits W -> tracks_ok s ->
  subscripts_ok_since s (snd (checkDirectory W i d s)).
Proof.
  intros Hfit (_ & _ & _ & Hlf). unfold checkDirectory, stopPlayback.
  destruct (negb (_ =? 0)); [destruct (negb (_ =? last_dir s)) |].
  - rewrite bool_decide_false by done. cbn [snd].
    eapply subscripts_ok_since_trans; [| by apply readFilenames_subscripts_ok].
    destruct (MP3player_isPlaying _ _); by apply subscripts_ok_since_same.
  - cbn [snd]. destruct (negb _);
      [apply playNextTrack_subscripts_ok; lia | apply subscripts_ok_since_refl].
  - destruct (MP3player_isPlaying W s); by apply subscripts_ok_since_same.
Qed.

Lemma checkVolume_subscripts i d s :
  subscripts (snd (checkVolume W i d s)) = subscripts s.
Proof.
  unfold checkVolume. destruct (negb (_ =? 0)); [| done]. by destruct (negb _).
Qed.

Lemma checkPreviousSwitch_released i s :
  previousTrackSwitchState i <> LOW ->
  checkPreviousSwitch W i s = set_previousTrackSwitchOn W false s.
Proof.
  intros Hhigh. unfold checkPreviousSwitch.
  destruct (Z.eqb_spec (previousTrackSwitchState i) LOW); [done |].
  by rewrite andb_false_r.
Qed.

Lemma checkInputs_subscripts_ok i s :
  card_fits W -> tracks_ok s -> previousTrackSwitchState i <> LOW ->
  subscripts_ok_since s (snd (checkInputs W i s)).
Proof.
  intros Hfit Hok Hhigh. unfold checkInputs.
  assert (subscripts_ok_since s (snd (checkVoltageDividers W i false s))
          /\ tracks_ok (snd (checkVoltageDividers W i false s))) as [H1 H1'].
  { unfold checkVoltageDividers.
    set (s0 := if buttonLastChecked s =? 0 then _ else s).
    assert (tracks_ok s0 /\ subscripts s0 = subscripts s) as [H0 H0']
      by (subst s0; by destruct (buttonLastChecked s =? 0)).
    destruct (_ >? _);
      [| split; [by apply subscripts_ok_since_same | done]].
    pose proof (checkDirectory_subscripts_ok i false s0 Hfit H0) as Hd.
    pose proof (checkDirectory_tracks_ok W i false s0 H0) as Hd'.
    destruct (checkDirectory W i false s0) as [d2 s2]. cbn [snd] in Hd, Hd'.
    pose proof (checkVolume_subscripts i d2 s2) as Hv.
    pose proof (checkVolume_tracks_ok W i d2 s2 Hd') as Hv'.
    destruct (checkVolume W i d2 s2) as [d3 s3]. cbn [snd] in *.
    split; [| done].
    eapply subscripts_ok_since_trans; [by apply (subscripts_ok_since_same s s0) |].
    eapply subscripts_ok_since_trans; [exact Hd |].
    by apply subscripts_ok_since_same. }
  destruct (checkVoltageDividers W i false s) as [d1 s1]. cbn [snd] in *.
  eapply subscripts_ok_since_trans; [exact H1 |].
  unfold checkSwitches. cbn [snd]. rewrite (checkPreviousSwitch_released i s1 Hhigh).
  unfold checkNextSwitch. destruct (_ && _); [| by apply subscripts_ok_since_same].
  eapply subscripts_ok_since_trans; [| by apply subscripts_ok_since_same].
  eapply subscripts_ok_since_trans;
    [| apply playNextTrack_subscripts_ok; by destruct H1' as (_ & _ & _ & ? & _)].
  by apply subscripts_ok_since_same.
Qed.

(** Sampling the next-track switch while it is released. *)

Lemma nextSwitchRun_released inputs s :
  Forall (fun i => nextTrackSwitchState i <> LOW) inputs ->
  nextSwitchRun inputs s
  = match inputs with [] => s | _ => set_nextTrackSwitchOn W false s end.
Proof.
  revert s. induction inputs as [| i inputs IH]; intros s Hall; [done |].
  apply Forall_cons in Hall as [Hi Hall].
  unfold nextSwitchRun in *. simpl.
  rewrite (checkNextSwitch_released W i s Hi), (IH _ Hall).
  by destruct inputs.
Qed.

End Stepping.

(** X13: below the capacity (track index 0..MAX_NUM_FILES-1)
    [playNextTrack] stops the decoder, asks it for the row after the
    current track, stores its answer in [result] and leaves the index one
    higher; the two subscripts it uses are the old index, inside the
    array; the file list and the selected directory are untouched.  At
    the capacity it does nothing. *)
Theorem playNextTrack_step (W : World) (s : State W)
  (Hindex : 0 <= last_file s) :
  (last_file s < MAX_NUM_FILES ->
     exists code,
       trace (playNextTrack W s)
       = trace s ++ [EvStop;
                     EvPlay (default EmptyString
                               (filename s !! Z.to_nat (last_file s))) code]
       /\ result (playNextTrack W s) = code
       /\ last_file (playNextTrack W s) = last_file s + 1
       /\ subscripts (playNextTrack W s)
          = subscripts s ++ [AccAddr (last_file s); AccRead (last_file s)]
       /\ filename (playNextTrack W s) = filename s
       /\ last_dir (playNextTrack W s) = last_dir s)
  /\ (MAX_NUM_FILES <= last_file s -> playNextTrack W s = s)
  /\ subscripts_ok_since s (playNextTrack W s).
Proof.
  split; [| split].
  - intros Hlt. apply playNextTrack_below_capacity. lia.
  - intros Hge. apply playNextTrack_at_capacity. lia.
  - by apply playNextTrack_subscripts_ok.
Qed.

Lemma playNextTrack_step_witness :
  last_file (playNextTrack Bench.three_tracks Bench.playing3) = 2.
Proof.
  assert (Hindex : 0 <= last_file Bench.playing3) by (vm_compute; discriminate).
  destruct (playNextTrack_step Bench.three_tracks Bench.playing3 Hindex)
    as (Hstep & _ & _).
  destruct Hstep as (code & _ & _ & Hl & _); [vm_compute; reflexivity |].
  exact Hl.
Defined.

(** X14: from the second track on (track index 2..MAX_NUM_FILES)
    [playPreviousTrack] stops the decoder, asks it for the row before the
    current track, stores its answer in [result] and leaves the index one
    lower, using subscripts inside the array only; at index 0 it does
    nothing. *)
Theorem playPreviousTrack_step (W : World) (s : State W)
  (Hindex : last_file s <= MAX_NUM_FILES) :
  (2 <= last_file s ->
     exists code,
       trace (playPreviousTrack W s)
       = trace s ++ [EvStop;
                     EvPlay (default EmptyString
                               (filename s !! Z.to_nat (last_file s - 2))) code]
       /\ result (playPreviousTrack W s) = code
       /\ last_file (playPreviousTrack W s) = last_file s - 1
       /\ subscripts (playPreviousTrack W s)
          = subscripts s ++ [AccAddr (last_file s - 2); AccRead (last_file s - 2)]
       /\ filename (playPreviousTrack W s) = filename s)
  /\ (last_file s <= 0 -> playPreviousTrack W s = s).
Proof.
  split; [| apply playPreviousTrack_none].
  intros Hge. unfold playPreviousTrack. rewrite Z.geb_leb.
  destruct (Z.leb_spec 0 (last_file s - 1)); [| lia].
  unfold filename_row. rewrite bool_decide_true by done.
  unfold playMp3File, filename_read, MP3player_playMP3. simpl.
  rewrite (to_byte_small (last_file s - 1)) by (unfold MAX_NUM_FILES in *; lia).
  replace (last_file s - 1 - 1) with (last_file s - 2) by lia.
  assert (in_bounds (last_file s - 2) = true) as ->.
  { unfold in_bounds. zcases; lia. }
  destruct (playMP3 W _ _) as [code a]. exists code.
  destruct (code =? 0); simpl; by rewrite <- !app_assoc.
Qed.

Lemma playPreviousTrack_step_witness :
  last_file (playPreviousTrack Bench.three_tracks
               (playNextTrack Bench.three_tracks Bench.playing3)) = 1.
Proof.
  assert (Hindex : last_file (playNextTrack Bench.three_tracks Bench.playing3)
                   <= MAX_NUM_FILES) by (vm_compute; discriminate).
  destruct (playPreviousTrack_step Bench.three_tracks
              (playNextTrack Bench.three_tracks Bench.playing3) Hindex)
    as (Hstep & _).
  destruct Hstep as (code & _ & _ & Hl & _); [vm_compute; discriminate |].
  exact Hl.
Defined.

(** X15: on a card whose directories each hold at most MAX_NUM_FILES
    copied names, a pass that starts with the globals in their ranges and
    finds the previous-track switch released uses only subscripts inside
    the [filename] array, whatever the selectors, the next-track switch
    and the decoder do. *)
Theorem pass_subscripts_in_bounds (W : World) (i : Inputs) (s : State W)
  (Hcard : card_fits W) (Hok : tracks_ok s)
  (Hprevious : previousTrackSwitchState i <> LOW) :
  subscripts_ok_since s (loop W i s).
Proof.
  pose proof (checkInputs_subscripts_ok W i s Hcard Hok Hprevious) as H1.
  unfold loop. destruct (checkInputs W i s) as [d s1]. cbn [snd] in H1.
  eapply subscripts_ok_since_trans; [exact H1 |].
  apply subscripts_ok_since_same.
  assert (subscripts (handleSleep W i d s1) = subscripts s1) as <-.
  { unfold handleSleep. destruct (_ && _); [| done]. by destruct (_ >=? _). }
  unfold adjustVolume. zcases; done.
Qed.

Lemma pass_subscripts_in_bounds_witness :
  subscripts_ok_since Bench.playing3
    (loop Bench.three_tracks
       (Bench.pass 2100 Bench.at3 Bench.open HIGH LOW) Bench.playing3).
Proof.
  apply pass_subscripts_in_bounds.
  - intros dir entries. unfold Bench.three_tracks, Bench.card3, Bench.world,
      Bench.card_list. simpl.
    destruct (decide (_ = dir)); simpl; [| discriminate].
    intros [= <-]. vm_compute. lia.
  - vm_compute. repeat split; (reflexivity || discriminate).
  - vm_compute. discriminate.
Defined.

(** X16: a press of the next-track switch that is seen LOW on one pass
    and released on the passes after it dispatches [playNextTrack] exactly
    once, on the pass of the press, provided a directory is active and the
    debounce flag was clear; the released samples after it clear the flag
    again and change nothing else. *)
Theorem single_press_single_dispatch (W : World) (press : Inputs)
  (released : list Inputs) (s : State W)
  (Hdir : last_dir s > 0) (Hclear : nextTrackSwitchOn s = false)
  (Hpress : nextTrackSwitchState press = LOW)
  (Hreleased : Forall (fun i => nextTrackSwitchState i <> LOW) released) :
  nextSwitchRun (press :: released) s
  = set_nextTrackSwitchOn W (match released with [] => true | _ => false end)
      (playNextTrack W s).
Proof.
  unfold nextSwitchRun. simpl.
  rewrite (checkNextSwitch_fires W press s Hdir Hpress Hclear).
  pose proof (nextSwitchRun_released W released
                (set_nextTrackSwitchOn W true (playNextTrack W s)) Hreleased)
    as Hrun.
  unfold nextSwitchRun in Hrun. rewrite Hrun. by destruct released.
Qed.

Lemma single_press_single_dispatch_witness :
  last_file (nextSwitchRun
               [Bench.pass 2100 Bench.at3 Bench.open HIGH LOW;
                Bench.pass 2101 Bench.at3 Bench.open HIGH HIGH;
                Bench.pass 2102 Bench.at3 Bench.open HIGH HIGH]
               Bench.playing3) = 2.
Proof.
  rewrite (single_press_single_dispatch Bench.three_tracks
             (Bench.pass 2100 Bench.at3 Bench.open HIGH LOW)
             [Bench.pass 2101 Bench.at3 Bench.open HIGH HIGH;
              Bench.pass 2102 Bench.at3 Bench.open HIGH HIGH]
             Bench.playing3).
  - reflexivity.
  - vm_compute. reflexivity.
  - reflexivity.
  - reflexivity.
  - repeat constructor; vm_compute; discriminate.
Defined.

(** ** Whole passes *)

Section Passes.

Variable W : World.
Implicit Types s : State W.

Lemma checkVolume_idle i d s :
  volume_trigger i s = false -> checkVolume W i d s = (d, s).
Proof.
  unfold volume_trigger, checkVolume. intros Hno.
  destruct (negb (_ =? 0)); [| done]. simpl in Hno. by rewrite Hno.
Qed.

Lemma readFilenames_last_dir dirNum s :
  last_dir (readFilenames W dirNum s) = last_dir s.
Proof.
  unfold readFilenames, stopPlayback.
  assert (forall n t, last_dir (playMp3File W n t) = last_dir t) as Hplay.
  { intros n t. unfold playMp3File, filename_read, MP3player_playMP3. simpl.
    destruct (playMP3 W _ _) as [code a]. by destruct (code =? 0). }
  rewrite Hplay. cbn [last_dir set_last_file].
  match goal with |- context [sd_list W ?d] =>
    destruct (sd_list W d) as [entries|] end; [| done].
  by destruct (keep_filename_tracks W entries 0
    (set_filename W (replicate (Z.to_nat MAX_NUM_FILES) EmptyString)
       (MP3player_stopTrack W s))) as (_ & -> & _).
Qed.

End Passes.

(** X17: a reading of the directory selector on a new position p (1..5)
    records p, raises the interaction flag, stops the track if one plays
    and loads the directory registered in row p - 1 of [dirname]: when
    that directory has at most MAX_NUM_FILES copied names, [filename]
    holds them in card order followed by empty rows, the decoder is asked
    for the first of them, and the track index is 1 if it starts and 0 if
    not. *)
Theorem new_position_loads_directory (W : World) (i : Inputs) (d : bool)
  (s : State W) (Hnew : directory_trigger i s = true) :
  let p := buttonPushed (analog_directory i) in
  let dir := default EmptyString (dirname s !! Z.to_nat (p - 1)) in
  let names := match sd_list W dir with
               | Some entries => filter (fun name => eligible name = true) entries
               | None => []
               end in
  let r := checkDirectory W i d s in
  (length names <= Z.to_nat MAX_NUM_FILES)%nat ->
  1 <= p <= 5 /\ fst r = true /\ last_dir (snd r) = p
  /\ filename (snd r)
     = names ++ replicate (Z.to_nat MAX_NUM_FILES - length names) EmptyString
  /\ exists code,
       trace (snd r)
       = trace s ++ (if MP3player_isPlaying W s then [EvStop] else [])
           ++ [EvStop; EvPlay (default EmptyString (head names)) code]
       /\ result (snd r) = code
       /\ last_file (snd r) = (if code =? 0 then 1 else 0).
Proof.
  cbv zeta. intros Hfit.
  pose proof (buttonPushed_range (analog_directory i)) as Hr.
  assert (buttonPushed (analog_directory i) <> 0) as Hnz.
  { unfold directory_trigger in Hnew. apply andb_true_iff in Hnew as [Hnz _].
    revert Hnz. zcases; [done | lia]. }
  rewrite (checkDirectory_new_trigger W i d s Hnew). cbn [fst snd]. cbv zeta.
  set (p := buttonPushed (analog_directory i)) in *.
  set (t := if MP3player_isPlaying W (set_last_dir W p s)
            then stopPlayback W (set_last_dir W p s) else set_last_dir W p s).
  assert (dirname t = dirname s /\ last_dir t = p
          /\ trace t = trace s ++ (if MP3player_isPlaying W s then [EvStop] else []))
    as (Hd & Hl & Ht).
  { subst t. change (MP3player_isPlaying W (set_last_dir W p s))
      with (MP3player_isPlaying W s).
    destruct (MP3player_isPlaying W s); simpl; [done |]. by rewrite app_nil_r. }
  pose proof (readFilenames_spec W p t) as Hspec. cbv zeta in Hspec.
  rewrite Hd in Hspec. destruct (Hspec Hfit) as (Hf & _ & code & Htr & Hres & Hlf).
  split; [lia |]. split; [done |].
  split; [by rewrite readFilenames_last_dir |].
  split; [done |].
  exists code. rewrite Htr, Ht, <- app_assoc. done.
Qed.

Lemma new_position_loads_directory_witness :
  last_dir (snd (checkDirectory Bench.three_tracks
                   (Bench.pass 2000 Bench.at3 Bench.open HIGH HIGH) false
                   (setup Bench.three_tracks
                      (boot Bench.three_tracks Bench.idle)))) = 3.
Proof.
  assert (Hnew : directory_trigger
                   (Bench.pass 2000 Bench.at3 Bench.open HIGH HIGH)
                   (setup Bench.three_tracks
                      (boot Bench.three_tracks Bench.idle)) = true)
    by reflexivity.
  refine (proj1 (proj2 (proj2 (new_position_loads_directory Bench.three_tracks
            (Bench.pass 2000 Bench.at3 Bench.open HIGH HIGH) false
            (setup Bench.three_tracks (boot Bench.three_tracks Bench.idle))
            Hnew _)))).
  vm_compute. lia.
Defined.

(** X18: a pass in which nothing changes does not disturb a playing
    track.  If a track plays, both switches are released and the
    selectors are either not due or read the recorded directory position
    and no new volume position, the pass issues no call but its
    [setVolume], keeps the selected directory, the track index and the
    file list, and sets the idle timer to the current time. *)
Theorem steady_pass_keeps_playing (W : World) (i : Inputs) (s : State W)
  (Hplaying : MP3player_isPlaying W s = true)
  (Hprevious : previousTrackSwitchState i <> LOW)
  (Hnext : nextTrackSwitchState i <> LOW)
  (Hselectors : selectors_due i s = false
                \/ (buttonPushed (analog_directory i) <> 0
                    /\ buttonPushed (analog_directory i) = last_dir s
                    /\ volume_trigger i s = false)) :
  trace (loop W i s)
  = trace s ++ [EvSetVolume (volume (loop W i s)) (volume (loop W i s))]
  /\ last_dir (loop W i s) = last_dir s
  /\ last_file (loop W i s) = last_file s
  /\ filename (loop W i s) = filename s
  /\ subscripts (loop W i s) = subscripts s
  /\ sleepCounter (loop W i s) = to_long (millis_active i).
Proof.
  set (s0 := if buttonLastChecked s =? 0
             then set_buttonLastChecked W (to_long (millis_first i + BUTTONDELAY)) s
             else s).
  assert (exists t, checkInputs W i s
                    = (false, set_nextTrackSwitchOn W false
                                (set_previousTrackSwitchOn W false t))
          /\ trace t = trace s /\ last_dir t = last_dir s
          /\ last_file t = last_file s /\ filename t = filename s
          /\ subscripts t = subscripts s /\ player t = player s)
    as (t & Hin & Ht & Hd & Hf & Hn & Hu & Hp).
  { unfold checkInputs, checkSwitches.
    destruct (Z.eqb_spec (nextTrackSwitchState i) LOW) as [| _]; [done |].
    destruct Hselectors as [Hdue | (Hnz & Hsame & Hvol)].
    - rewrite (checkVoltageDividers_not_due W i false s Hdue). fold s0.
      exists s0. rewrite (checkPreviousSwitch_released W i s0 Hprevious).
      rewrite (checkNextSwitch_released W i _ Hnext).
      split; [done |]. subst s0. by destruct (buttonLastChecked s =? 0).
    - destruct (selectors_due i s) eqn:Hdue.
      + rewrite (checkVoltageDividers_due W i false s Hdue). cbv zeta. fold s0.
        assert (last_dir s0 = last_dir s /\ MP3player_isPlaying W s0 = true
                /\ volume_trigger i s0 = false) as (Hd0 & Hp0 & Hv0).
        { subst s0. unfold volume_trigger in *.
          by destruct (buttonLastChecked s =? 0). }
        rewrite (checkDirectory_same W i false s0 Hnz) by (by rewrite Hd0).
        rewrite Hp0. cbn [fst snd]. rewrite (checkVolume_idle W i false s0 Hv0).
        cbn [fst snd].
        exists (set_buttonLastChecked W (to_long (millis_checked i)) s0).
        rewrite (checkPreviousSwitch_released W i _ Hprevious).
        rewrite (checkNextSwitch_released W i _ Hnext).
        split; [done |]. subst s0. by destruct (buttonLastChecked s =? 0).
      + rewrite (checkVoltageDividers_not_due W i false s Hdue). fold s0.
        exists s0. rewrite (checkPreviousSwitch_released W i s0 Hprevious).
        rewrite (checkNextSwitch_released W i _ Hnext).
        split; [done |]. subst s0. by destruct (buttonLastChecked s =? 0). }
  unfold loop. rewrite Hin. rewrite adjustVolume_trace.
  rewrite handleSleep_active
    by (unfold MP3player_isPlaying in *; simpl; by rewrite Hp, Hplaying).
  destruct (adjustVolume_frame W
              (set_sleepCounter W (to_long (millis_active i))
                 (set_nextTrackSwitchOn W false
                    (set_previousTrackSwitchOn W false t))))
    as (-> & -> & -> & ->).
  assert (subscripts (adjustVolume W
            (set_sleepCounter W (to_long (millis_active i))
               (set_nextTrackSwitchOn W false
                  (set_previousTrackSwitchOn W false t)))) = subscripts s) as ->.
  { unfold adjustVolume. zcases; done. }
  simpl. by rewrite Ht, Hd, Hf, Hn.
Qed.

Lemma steady_pass_keeps_playing_witness :
  last_file (loop Bench.three_tracks
               (Bench.pass 4000 Bench.at3 Bench.open HIGH HIGH) Bench.playing3)
  = 1.
Proof.
  refine (proj1 (proj2 (proj2 (steady_pass_keeps_playing Bench.three_tracks
            (Bench.pass 4000 Bench.at3 Bench.open HIGH HIGH) Bench.playing3
            _ _ _ _)))).
  - reflexivity.
  - vm_compute. discriminate.
  - vm_compute. discriminate.
  - right. repeat split; vm_compute; (reflexivity || discriminate).
Defined.
